(** * MCDA patient prioritisation: a shallow embedding of
    [notebooks/codefile_afternoon.py] and its verified properties.

    Modelling conventions.
    - A pandas float is an exact rational ([Qc], canonical rationals, so that
      Python's [==] is Leibniz equality); [NaN] is [None].  A float column
      ([pd.Series]) is a [list (option Qc)].  This leaves rounding and
      overflow aside; where they decide, modules [pd64] and [F64] give the
      same functions over binary64 numbers.
    - A [dict] with string keys is a [gmap string Qc].
    - A [DataFrame] is its list of column labels together with its rows.
    - A raised exception is an [Err] result.
    - pandas library calls ([map], [median], [fillna], [groupby().transform],
      [groupby().rank]) are modelled by the functions of section "pandas"
      below, following the pandas 1.x behaviour the script was written for
      (in-place [fillna] on a column writes through to the frame, and
      [groupby().apply] of a like-indexed function keeps the frame's index). *)

From Stdlib Require Import QArith Qcanon PrimFloat FloatOps FloatAxioms SpecFloat.
From stdpp Require Import base numbers option list sorting strings gmap fin_maps.

Set Warnings "-clear-no-such-hyp".
Set Warnings "-inexact-float".

Local Open Scope string_scope.
Local Open Scope list_scope.
Local Open Scope Qc_scope.

(** ** Floats and series *)

Abbreviation Series := (list (option Qc)).

Definition half : Qc := Q2Qc (1 # 2).

(** ** pandas *)

Module pd.

(** [s.dropna()] *)
Definition dropna (s : Series) : list Qc := omap id s.

(** [s.isna().any()] *)
Definition isna_any (s : Series) : bool := bool_decide (Exists (λ x, x = None) s).

(** [s.fillna(value)]; filling with [NaN] changes nothing. *)
Definition fillna (value : option Qc) (s : Series) : Series :=
  (λ x, match x with Some v => Some v | None => value end) <$> s.

Definition Qc_min (x y : Qc) : Qc := if decide (x ≤ y) then x else y.
Definition Qc_max (x y : Qc) : Qc := if decide (x ≤ y) then y else x.

(** [valid.min()], [valid.max()] on a series without [NaN]. *)
Definition min (v0 : Qc) (valid : list Qc) : Qc := foldr Qc_min v0 valid.
Definition max (v0 : Qc) (valid : list Qc) : Qc := foldr Qc_max v0 valid.

(** Median of a list of known values: the middle element of the sorted
    values, or the mean of the two middle ones. *)
Definition median_of (valid : list Qc) : option Qc :=
  let sorted := merge_sort Qcle valid in
  let n := length sorted in
  if decide (n = 0)%nat then None
  else if Nat.even n
       then a ← sorted !! (n / 2 - 1)%nat; b ← sorted !! (n / 2)%nat; Some ((a + b) / 2)
       else sorted !! (n / 2)%nat.

(** [s.median(skipna=True)]; [NaN] when nothing is known. *)
Definition median (s : Series) : option Qc := median_of (dropna s).

(** [s.map(d)] for a dict [d]: labels absent from [d] become [NaN]. *)
Definition map (d : gmap string Qc) (s : list string) : Series := (λ k, d !! k) <$> s.

(** The sub-series of the rows whose key is [k], in frame order. *)
Definition group {A} (keys : list string) (vals : list A) (k : string) : list A :=
  (filter (λ kv, kv.1 = k) (zip keys vals)).*2.

(** Position of row [i] inside its group: the number of earlier rows with
    the same key. *)
Definition pos_in_group (keys : list string) (i : nat) (k : string) : nat :=
  length (filter (λ k', k' = k) (take i keys)).

(** [df.groupby(keys)[col].transform(f)] (and [.apply(f)] for a
    like-indexed [f]): [f] runs once on each group's sub-series and the
    results are scattered back to the rows' original positions.  A label
    the result lacks is [NaN]. *)
Definition groupby_transform {A B} (keys : list string) (vals : list A)
    (f : list A → list (option B)) : list (option B) :=
  imap (λ i k, mjoin (f (group keys vals k) !! pos_in_group keys i k)) keys.

(** The order [rank(method='first', ascending=False)] sorts by: larger
    value first, and among equal values the earlier position first. *)
Definition ranks_before (x y : nat * Qc) : Prop :=
  y.2 < x.2 ∨ (x.2 = y.2 ∧ (x.1 ≤ y.1)%nat).

Global Instance ranks_before_dec : RelDecision ranks_before.
Proof. intros x y. unfold ranks_before. apply _. Defined.

(** Known values with their positions. *)
Definition valid_indexed (s : Series) : list (nat * Qc) :=
  omap id (imap (λ p x, (λ v, (p, v)) <$> x) s).

(** [s.rank(method='first', ascending=False)]: the 1-based place of each
    known value in the descending order; [NaN] keeps [NaN]
    ([na_option='keep']). *)
Definition rank_first_desc (s : Series) : list (option nat) :=
  let order := (merge_sort ranks_before (valid_indexed s)).*1 in
  imap (λ p x, _ ← x; (λ ip, S ip.1) <$> list_find (λ q, q = p) order) s.

(** [ranks.astype(int)]: fails on [NaN]. *)
Definition astype_int (ranks : list (option nat)) : option (list nat) :=
  mapM id ranks.

End pd.

(** ** The script *)

Definition DEFAULT_VITALS_ORDER : gmap string Qc :=
  {[ "Deteriorating" := 1; "Stable" := half; "Improving" := 0 ]}.

(** [normalize_series] *)
Definition normalize_series (s : Series) : Series :=
  let valid := pd.dropna s in
  match valid with
  | [] => s
  | v0 :: _ =>
      let mn := pd.min v0 valid in
      let mx := pd.max v0 valid in
      if decide (mn = mx)
      then (λ x, match x with Some _ => Some half | None => None end) <$> s
      else (λ x, match x with Some v => Some ((v - mn) / (mx - mn)) | None => None end) <$> s
  end.

(** A row of the input frame: the four columns the script reads. *)
Record Row := {
  Speciality : string;
  Complexity : option Qc;
  Acuity : option Qc;
  Vitals_Trend : string
}.

(** The input frame: its column labels and its rows.  When a required label
    is absent the script stops before reading any row. *)
Record DataFrame := {
  columns : list string;
  rows : list Row
}.

(** A row of the returned frame, with the two added columns. *)
Record ScoredRow := {
  row : Row;
  MCDA_score : option Qc;
  mcda_rank_within_Speciality : nat
}.

(** The exceptions the call can raise. *)
Inductive Error :=
  | ValueError_missing_columns (missing : list string)
  | ValueError_sum_of_weights
  | KeyError (key : string)
  | IntCastingNaNError.

Inductive Result (A : Type) :=
  | Ok (a : A)
  | Err (e : Error).
Arguments Ok {A} a.
Arguments Err {A} e.

(** [required], with the column-name keyword arguments at their defaults. *)
Definition required : list string :=
  ["Speciality"; "Complexity"; "Acuity"; "Vitals Trend"].

(** [[c for c in required if c not in df.columns]] *)
Definition missing_columns (df : DataFrame) : list string :=
  filter (λ c, c ∉ columns df) required.

Definition default_weights : gmap string Qc :=
  {[ "complexity" := Q2Qc (5 # 10); "acuity" := Q2Qc (3 # 10); "vitals" := Q2Qc (2 # 10) ]}.

(** [sum(weights.values())] *)
Definition w_total (weights : gmap string Qc) : Qc :=
  map_fold (λ _ v acc, acc + v) 0 weights.

(** [{k: v / w_total for k, v in weights.items()}] *)
Definition normalized_weights (weights : gmap string Qc) : gmap string Qc :=
  (λ v, v / w_total weights) <$> weights.

(** Column [_vitals_score_raw] after the median fill of unseen labels. *)
Definition vitals_score_raw (vitals_map : gmap string Qc) (rs : list Row) : Series :=
  let raw := pd.map vitals_map (Vitals_Trend <$> rs) in
  if pd.isna_any raw then pd.fillna (pd.median raw) raw else raw.

(** Normalised complexity or acuity, within each Speciality or globally. *)
Definition normalized_column (normalize_within_Speciality : bool)
    (keys : list string) (col : Series) : Series :=
  if normalize_within_Speciality
  then pd.groupby_transform keys col normalize_series
  else normalize_series col.

(** [groupby('Speciality')[col].apply(lambda s: s.fillna(s.median()))] *)
Definition fill_group_median (keys : list string) (col : Series) : Series :=
  pd.groupby_transform keys col (λ s, pd.fillna (pd.median s) s).

(** Columns [_norm_complexity] and [_norm_acuity] as used by the score. *)
Definition norm_complexity (flag : bool) (rs : list Row) : Series :=
  fill_group_median (Speciality <$> rs)
    (normalized_column flag (Speciality <$> rs) (Complexity <$> rs)).

Definition norm_acuity (flag : bool) (rs : list Row) : Series :=
  fill_group_median (Speciality <$> rs)
    (normalized_column flag (Speciality <$> rs) (Acuity <$> rs)).

(** Float arithmetic on columns: [NaN] propagates. *)
Definition scale (w : Qc) (s : Series) : Series :=
  (λ x : option Qc, Qcmult w <$> x) <$> s.
Definition add (s t : Series) : Series :=
  zip_with (λ x y, a ← x; b ← y; Some (a + b)) s t.

(** The linear additive score column. *)
Definition score_column (wc wa wv : Qc) (nc na vs : Series) : Series :=
  add (add (scale wc nc) (scale wa na)) (scale wv vs).

(** [weights[k]] *)
Definition getitem (weights : gmap string Qc) (k : string) : Result Qc :=
  match weights !! k with
  | Some v => Ok v
  | None => Err (KeyError k)
  end.

Definition bind {A B} (r : Result A) (k : A → Result B) : Result B :=
  match r with
  | Ok a => k a
  | Err e => Err e
  end.

Notation "x ←! r ; k" := (bind r (λ x, k))
  (at level 20, r at level 100, k at level 200, right associativity).

(** [compute_mcda_scores] *)
Definition compute_mcda_scores (df : DataFrame)
    (weights vitals_map : option (gmap string Qc))
    (normalize_within_Speciality : bool) : Result (list ScoredRow) :=
  let missing := missing_columns df in
  if decide (missing ≠ []) then Err (ValueError_missing_columns missing) else
  let weights := default default_weights weights in
  if decide (w_total weights = 0) then Err ValueError_sum_of_weights else
  let weights := normalized_weights weights in
  let vitals_map := default DEFAULT_VITALS_ORDER vitals_map in
  let rs := rows df in
  let keys := Speciality <$> rs in
  let vs := vitals_score_raw vitals_map rs in
  let nc := norm_complexity normalize_within_Speciality rs in
  let na := norm_acuity normalize_within_Speciality rs in
  wc ←! getitem weights "complexity";
  wa ←! getitem weights "acuity";
  wv ←! getitem weights "vitals";
  let scores := score_column wc wa wv nc na vs in
  match pd.astype_int (pd.groupby_transform keys scores pd.rank_first_desc) with
  | None => Err IntCastingNaNError
  | Some ranks =>
      Ok (zip_with (λ rs k, Build_ScoredRow rs.1 rs.2 k) (zip rs scores) ranks)
  end.

(** ** Sample data *)

Definition q (n : Z) (d : positive) : option Qc := Some (Q2Qc (n # d)).

Definition all_columns : list string :=
  ["Speciality"; "Complexity"; "Acuity"; "Vitals Trend"].

Definition sample_rows : list Row := [
  {| Speciality := "Cardiology"; Complexity := q 3 1; Acuity := q 2 1; Vitals_Trend := "Stable" |};
  {| Speciality := "Oncology"; Complexity := q 7 1; Acuity := q 5 1; Vitals_Trend := "Deteriorating" |};
  {| Speciality := "Cardiology"; Complexity := q 9 1; Acuity := q 4 1; Vitals_Trend := "Unknown" |};
  {| Speciality := "Cardiology"; Complexity := q 3 1; Acuity := q 2 1; Vitals_Trend := "Stable" |};
  {| Speciality := "Oncology"; Complexity := q 1 1; Acuity := None; Vitals_Trend := "Improving" |}
].

Definition sample_df : DataFrame := {| columns := all_columns; rows := sample_rows |}.

(** A frame without the [Acuity] column. *)
Definition no_acuity_df : DataFrame :=
  {| columns := ["Speciality"; "Complexity"; "Vitals Trend"]; rows := sample_rows |}.

(** Weights that are all negative: their sum is -1. *)
Definition negative_weights : gmap string Qc :=
  {[ "complexity" := Q2Qc (-5 # 10); "acuity" := Q2Qc (-3 # 10); "vitals" := Q2Qc (-2 # 10) ]}.

(** [m] is the least (greatest) element of [l]. *)
Definition is_min (m : Qc) (l : list Qc) : Prop := m ∈ l ∧ ∀ v, v ∈ l → m ≤ v.
Definition is_max (m : Qc) (l : list Qc) : Prop := m ∈ l ∧ ∀ v, v ∈ l → v ≤ m.

(** The vitals scores of the rows whose label the map knows, over the whole
    frame. *)
Definition known_vitals_scores (vitals_map : gmap string Qc) (rs : list Row) : list Qc :=
  pd.dropna (pd.map vitals_map (Vitals_Trend <$> rs)).

(** A series with a missing entry. *)
Definition sample_series : Series := [q 2 1; None; q 4 1; q 3 1].

(** Three rows with vitals Deteriorating, Stable and an unseen label, in
    three different Specialities. *)
Definition unknown_vitals_rows : list Row := [
  {| Speciality := "Cardiology"; Complexity := q 3 1; Acuity := q 2 1; Vitals_Trend := "Deteriorating" |};
  {| Speciality := "Oncology"; Complexity := q 7 1; Acuity := q 5 1; Vitals_Trend := "Stable" |};
  {| Speciality := "Renal"; Complexity := q 9 1; Acuity := q 4 1; Vitals_Trend := "Unknown" |}
].

(** A series with its rationals shown as plain fractions. *)
Definition values (s : Series) : list (option Q) := (λ x : option Qc, this <$> x) <$> s.

(** A frame in which no vitals label is known to the default map. *)
Definition unmapped_vitals_df : DataFrame :=
  {| columns := all_columns;
     rows := [
       {| Speciality := "Cardiology"; Complexity := q 3 1; Acuity := q 2 1; Vitals_Trend := "Unknown" |};
       {| Speciality := "Cardiology"; Complexity := q 5 1; Acuity := q 4 1; Vitals_Trend := "Worsening" |}
     ] |}.

(** A frame whose Renal rows have no complexity at all, next to a complete
    Cardiology group. *)
Definition unresolved_complexity_df : DataFrame :=
  {| columns := all_columns;
     rows := [
       {| Speciality := "Cardiology"; Complexity := q 3 1; Acuity := q 2 1; Vitals_Trend := "Stable" |};
       {| Speciality := "Renal"; Complexity := None; Acuity := q 5 1; Vitals_Trend := "Stable" |};
       {| Speciality := "Cardiology"; Complexity := q 9 1; Acuity := q 4 1; Vitals_Trend := "Improving" |};
       {| Speciality := "Renal"; Complexity := None; Acuity := q 1 1; Vitals_Trend := "Deteriorating" |}
     ] |}.

(** Weights of mixed sign that already sum to 1. *)
Definition mixed_sign_weights : gmap string Qc :=
  {[ "complexity" := Q2Qc 2; "acuity" := Q2Qc (-1 # 2); "vitals" := Q2Qc (-1 # 2) ]}.

Definition two_row_df : DataFrame :=
  {| columns := all_columns;
     rows := [
       {| Speciality := "Cardiology"; Complexity := q 1 1; Acuity := q 2 1; Vitals_Trend := "Improving" |};
       {| Speciality := "Cardiology"; Complexity := q 5 1; Acuity := q 1 1; Vitals_Trend := "Improving" |}
     ] |}.

(** The sum of the three weights the score uses, after normalisation. *)
Definition used_weight_sum (weights : gmap string Qc) : option Qc :=
  wc ← normalized_weights weights !! "complexity";
  wa ← normalized_weights weights !! "acuity";
  wv ← normalized_weights weights !! "vitals";
  Some (wc + wa + wv).




(** A mapping without the [vitals] key. *)
Definition two_weights : gmap string Qc :=
  {[ "complexity" := Q2Qc 1; "acuity" := Q2Qc 1 ]}.

Definition weights_2_1_1 : gmap string Qc :=
  {[ "complexity" := Q2Qc 2; "acuity" := Q2Qc 1; "vitals" := Q2Qc 1 ]}.

Definition weights_half_quarter_quarter : gmap string Qc :=
  {[ "complexity" := Q2Qc (1 # 2); "acuity" := Q2Qc (1 # 4); "vitals" := Q2Qc (1 # 4) ]}.

(** Every weight multiplied by [k]. *)
Definition scaled (k : Qc) (weights : gmap string Qc) : gmap string Qc :=
  Qcmult k <$> weights.

(** Results with the rationals shown as plain fractions, for evaluation. *)
Definition view (r : Result (list ScoredRow)) : Result (list (string * option Q * nat)) :=
  match r with
  | Ok out => Ok ((λ o, (Speciality (row o), this <$> MCDA_score o, mcda_rank_within_Speciality o)) <$> out)
  | Err e => Err e
  end.

(** The scored sample frame. *)
Definition sample_out : list ScoredRow :=
  match compute_mcda_scores sample_df None None true with
  | Ok out => out
  | Err _ => []
  end.

(** ** Further definitions *)

(** [rank_within_all_specialties]: the order of
    [sort_values(['Speciality', 'mcda_rank_within_Speciality'])].  Rows are
    compared by Speciality (strings by code point, which is the bytewise
    order of their encoding), then by rank. *)
Definition key_le (x y : ScoredRow) : Prop :=
  (Speciality (row x) ≠ Speciality (row y) ∧
   String.le (Speciality (row x)) (Speciality (row y))) ∨
  (Speciality (row x) = Speciality (row y) ∧
   (mcda_rank_within_Speciality x ≤ mcda_rank_within_Speciality y)%nat).

(** The sort is stable: rows with equal keys keep their frame order. *)
Definition sorts_before (x y : nat * ScoredRow) : Prop :=
  (Speciality (row x.2) ≠ Speciality (row y.2) ∧
   String.le (Speciality (row x.2)) (Speciality (row y.2))) ∨
  (Speciality (row x.2) = Speciality (row y.2) ∧
   ((mcda_rank_within_Speciality x.2 < mcda_rank_within_Speciality y.2)%nat ∨
    (mcda_rank_within_Speciality x.2 = mcda_rank_within_Speciality y.2 ∧
     (x.1 ≤ y.1)%nat))).

Global Instance sorts_before_dec : RelDecision sorts_before.
Proof. intros x y. unfold sorts_before. apply _. Defined.

Global Instance key_le_dec : RelDecision key_le.
Proof. intros x y. unfold key_le. apply _. Defined.

(** [rank_within_all_specialties]; the index reset has no counterpart, rows
    being addressed by position. *)
Definition rank_within_all_specialties (df_out : list ScoredRow) : list ScoredRow :=
  (merge_sort sorts_before (imap pair df_out)).*2.

(** What a Speciality's values become under normalisation followed by the
    median fill. *)
Definition normalize_and_fill (g : Series) : Series :=
  pd.fillna (pd.median (normalize_series g)) (normalize_series g).

(** The Cardiology rows of the sample frame on their own. *)
Definition cardiology_rows : list Row := [
  {| Speciality := "Cardiology"; Complexity := q 3 1; Acuity := q 2 1; Vitals_Trend := "Stable" |};
  {| Speciality := "Cardiology"; Complexity := q 9 1; Acuity := q 4 1; Vitals_Trend := "Unknown" |};
  {| Speciality := "Cardiology"; Complexity := q 3 1; Acuity := q 2 1; Vitals_Trend := "Stable" |}
].

(** * The script in double precision

    The definitions above compute with exact rationals.  Where rounding
    decides, the same functions are given again over IEEE 754 binary64
    numbers ([float], with its own [NaN]): every arithmetic step of the
    script is one floating-point operation, in the script's order, a weights
    [dict] keeps its insertion order (the sum of its values depends on it),
    and a missing value is a [NaN]. *)

Module pd64.

Local Open Scope float_scope.

(** [pd.isna] *)
Definition isna (x : float) : bool := is_nan x.

(** [s.dropna()] *)
Definition dropna (s : list float) : list float := filter (λ x, isna x = false) s.

(** [s.isna().any()] *)
Definition isna_any (s : list float) : bool := existsb isna s.

(** [s.fillna(value)] *)
Definition fillna (value : float) (s : list float) : list float :=
  (λ x, if isna x then value else x) <$> s.

(** [valid.min()], [valid.max()] on a series without [NaN]. *)
Definition min (v0 : float) (valid : list float) : float :=
  foldr (λ x y, if x <=? y then x else y) v0 valid.
Definition max (v0 : float) (valid : list float) : float :=
  foldr (λ x y, if x <=? y then y else x) v0 valid.

Definition le (x y : float) : Prop := (x <=? y) = true.

Global Instance le_dec : RelDecision le.
Proof. intros x y. unfold le. apply _. Defined.

(** Median of known values: the middle one of the sorted values, or the
    mean of the two middle ones; [NaN] when there is none. *)
Definition median_of (valid : list float) : float :=
  let sorted := merge_sort le valid in
  let n := length sorted in
  if decide (n = 0)%nat then nan
  else if Nat.even n
       then (default nan (sorted !! (n / 2 - 1)%nat) + default nan (sorted !! (n / 2)%nat)) / 2
       else default nan (sorted !! (n / 2)%nat).

(** [s.median(skipna=True)] *)
Definition median (s : list float) : float := median_of (dropna s).

(** [s.map(d)] for a dict [d]: labels absent from [d] become [NaN]. *)
Definition map (d : gmap string float) (s : list string) : list float :=
  (λ k, default nan (d !! k)) <$> s.

(** [df.groupby(keys)[col].transform(f)], with the grouping of [pd]. *)
Definition groupby_transform (keys : list string) (col : list float)
    (f : list float → list float) : list float :=
  default nan <$> pd.groupby_transform keys col (λ g, Some <$> f g).

(** The order of [rank(method='first', ascending=False)]. *)
Definition ranks_before (x y : nat * float) : Prop :=
  (y.2 <? x.2) = true ∨ ((x.2 =? y.2) = true ∧ (x.1 ≤ y.1)%nat).

Global Instance ranks_before_dec : RelDecision ranks_before.
Proof. intros x y. unfold ranks_before. apply _. Defined.

Definition valid_indexed (s : list float) : list (nat * float) :=
  filter (λ px, isna px.2 = false) (imap pair s).

(** [s.rank(method='first', ascending=False)]; the rank of a [NaN] is [NaN]
    ([None] here). *)
Definition rank_first_desc (s : list float) : list (option nat) :=
  let order := (merge_sort ranks_before (valid_indexed s)).*1 in
  imap (λ p x, if isna x then None
               else (λ ip, S ip.1) <$> list_find (λ q, q = p) order) s.

End pd64.

Module F64.

Local Open Scope float_scope.

Definition DEFAULT_VITALS_ORDER : gmap string float :=
  {[ "Deteriorating" := 1; "Stable" := 0.5; "Improving" := 0 ]}.

(** [normalize_series] *)
Definition normalize_series (s : list float) : list float :=
  let valid := pd64.dropna s in
  match valid with
  | [] => s
  | v0 :: _ =>
      let mn := pd64.min v0 valid in
      let mx := pd64.max v0 valid in
      if mn =? mx
      then (λ x, if pd64.isna x then x else 0.5) <$> s
      else (λ x, (x - mn) / (mx - mn)) <$> s
  end.

Record Row := {
  Speciality : string;
  Complexity : float;
  Acuity : float;
  Vitals_Trend : string
}.

Record DataFrame := {
  columns : list string;
  rows : list Row
}.

Record ScoredRow := {
  row : Row;
  MCDA_score : float;
  mcda_rank_within_Speciality : nat
}.

Definition missing_columns (df : DataFrame) : list string :=
  filter (λ c, c ∉ columns df) required.

(** A weights [dict], in insertion order. *)
Definition default_weights : list (string * float) :=
  [("complexity", 0.5); ("acuity", 0.3); ("vitals", 0.2)].

(** [sum(weights.values())]: from 0, adding the values in order. *)
Definition w_total (weights : list (string * float)) : float :=
  foldl (λ acc kv, acc + kv.2) 0 weights.

(** [{k: v / w_total for k, v in weights.items()}] *)
Definition normalized_weights (weights : list (string * float)) : list (string * float) :=
  (λ kv, (kv.1, kv.2 / w_total weights)) <$> weights.

(** [weights[k]] *)
Definition getitem (weights : list (string * float)) (k : string) : Result float :=
  match list_find (λ kv, kv.1 = k) weights with
  | Some (_, kv) => Ok kv.2
  | None => Err (KeyError k)
  end.

Definition vitals_score_raw (vitals_map : gmap string float) (rs : list Row) : list float :=
  let raw := pd64.map vitals_map (Vitals_Trend <$> rs) in
  if pd64.isna_any raw then pd64.fillna (pd64.median raw) raw else raw.

Definition normalized_column (normalize_within_Speciality : bool)
    (keys : list string) (col : list float) : list float :=
  if normalize_within_Speciality
  then pd64.groupby_transform keys col normalize_series
  else normalize_series col.

Definition fill_group_median (keys : list string) (col : list float) : list float :=
  pd64.groupby_transform keys col (λ s, pd64.fillna (pd64.median s) s).

Definition norm_complexity (flag : bool) (rs : list Row) : list float :=
  fill_group_median (Speciality <$> rs)
    (normalized_column flag (Speciality <$> rs) (Complexity <$> rs)).

Definition norm_acuity (flag : bool) (rs : list Row) : list float :=
  fill_group_median (Speciality <$> rs)
    (normalized_column flag (Speciality <$> rs) (Acuity <$> rs)).

Definition scale (w : float) (s : list float) : list float := (λ x, w * x) <$> s.
Definition add (s t : list float) : list float := zip_with PrimFloat.add s t.

(** [wc * nc + wa * na + wv * vs], column-wise, added from the left. *)
Definition score_column (wc wa wv : float) (nc na vs : list float) : list float :=
  add (add (scale wc nc) (scale wa na)) (scale wv vs).

(** [compute_mcda_scores] *)
Definition compute_mcda_scores (df : DataFrame)
    (weights : option (list (string * float)))
    (vitals_map : option (gmap string float))
    (normalize_within_Speciality : bool) : Result (list ScoredRow) :=
  let missing := missing_columns df in
  if decide (missing ≠ []) then Err (ValueError_missing_columns missing) else
  let weights := default default_weights weights in
  if w_total weights =? 0 then Err ValueError_sum_of_weights else
  let weights := normalized_weights weights in
  let vitals_map := default DEFAULT_VITALS_ORDER vitals_map in
  let rs := rows df in
  let keys := Speciality <$> rs in
  let vs := vitals_score_raw vitals_map rs in
  let nc := norm_complexity normalize_within_Speciality rs in
  let na := norm_acuity normalize_within_Speciality rs in
  wc ←! getitem weights "complexity";
  wa ←! getitem weights "acuity";
  wv ←! getitem weights "vitals";
  let scores := score_column wc wa wv nc na vs in
  match pd.astype_int (pd.groupby_transform keys scores pd64.rank_first_desc) with
  | None => Err IntCastingNaNError
  | Some ranks =>
      Ok (zip_with (λ rs k, Build_ScoredRow rs.1 rs.2 k) (zip rs scores) ranks)
  end.

(** The two added columns of an outcome. *)
Definition scores (r : Result (list ScoredRow)) : Result (list float) :=
  match r with
  | Ok out => Ok (MCDA_score <$> out)
  | Err e => Err e
  end.

Definition ranks (r : Result (list ScoredRow)) : Result (list nat) :=
  match r with
  | Ok out => Ok (mcda_rank_within_Speciality <$> out)
  | Err e => Err e
  end.

(** The weights of the two calls compared, and the defaults times three. *)
Definition weights_2_1_1 : list (string * float) :=
  [("complexity", 2); ("acuity", 1); ("vitals", 1)].

Definition weights_half_quarter_quarter : list (string * float) :=
  [("complexity", 0.5); ("acuity", 0.25); ("vitals", 0.25)].

Definition tripled_weights : list (string * float) :=
  [("complexity", 1.5); ("acuity", 0.9); ("vitals", 0.6)].

(** Three Cardiology rows whose first two scores are 3/5 each in exact
    arithmetic. *)
Definition near_tie_df : DataFrame :=
  {| columns := all_columns;
     rows := [
       {| Speciality := "Cardiology"; Complexity := 3; Acuity := 1; Vitals_Trend := "Stable" |};
       {| Speciality := "Cardiology"; Complexity := 2; Acuity := 2; Vitals_Trend := "Deteriorating" |};
       {| Speciality := "Cardiology"; Complexity := 1; Acuity := 3; Vitals_Trend := "Improving" |}
     ] |}.

(** A frame with two Specialities, a missing complexity, a missing acuity
    and a vitals label the default map does not know. *)
Definition sample_df : DataFrame :=
  {| columns := all_columns;
     rows := [
       {| Speciality := "Cardiology"; Complexity := 3; Acuity := 1; Vitals_Trend := "Stable" |};
       {| Speciality := "Renal"; Complexity := 2; Acuity := nan; Vitals_Trend := "Improving" |};
       {| Speciality := "Cardiology"; Complexity := nan; Acuity := 2; Vitals_Trend := "Deteriorating" |};
       {| Speciality := "Renal"; Complexity := 5; Acuity := 4; Vitals_Trend := "Stable" |};
       {| Speciality := "Cardiology"; Complexity := 1; Acuity := 3; Vitals_Trend := "Unknown" |}
     ] |}.

Definition sample_out : list ScoredRow :=
  match compute_mcda_scores sample_df None None true with
  | Ok out => out
  | Err _ => []
  end.

End F64.

(** The same frame and the tripled weights in exact arithmetic. *)
Definition near_tie_df : DataFrame :=
  {| columns := all_columns;
     rows := [
       {| Speciality := "Cardiology"; Complexity := q 3 1; Acuity := q 1 1; Vitals_Trend := "Stable" |};
       {| Speciality := "Cardiology"; Complexity := q 2 1; Acuity := q 2 1; Vitals_Trend := "Deteriorating" |};
       {| Speciality := "Cardiology"; Complexity := q 1 1; Acuity := q 3 1; Vitals_Trend := "Improving" |}
     ] |}.

Definition tripled_weights : gmap string Qc :=
  {[ "complexity" := Q2Qc (15 # 10); "acuity" := Q2Qc (9 # 10); "vitals" := Q2Qc (6 # 10) ]}.

(** * Properties *)

(** Settles a decidable closed goal by evaluating its decision procedure. *)
Ltac by_evaluation :=
  match goal with
  | |- ?P => apply (bool_decide_unpack P); vm_compute; exact I
  end.

(** ** Grouping: scatter and gather *)

Section group.
Context {A : Type}.
Implicit Types (keys : list string) (vals : list A) (k d : string).

Lemma group_nil_l vals k : pd.group [] vals k = [].
Proof. done. Qed.

Lemma group_cons k0 v0 keys vals k :
  pd.group (k0 :: keys) (v0 :: vals) k =
  if decide (k0 = k) then v0 :: pd.group keys vals k else pd.group keys vals k.
Proof.
  unfold pd.group. simpl. rewrite filter_cons. simpl.
  by destruct (decide (k0 = k)).
Qed.

Lemma pos_in_group_0 keys k : pd.pos_in_group keys 0 k = 0%nat.
Proof. unfold pd.pos_in_group. by rewrite take_0. Qed.

Lemma pos_in_group_S k0 keys i k :
  pd.pos_in_group (k0 :: keys) (S i) k =
  if decide (k0 = k) then S (pd.pos_in_group keys i k) else pd.pos_in_group keys i k.
Proof.
  unfold pd.pos_in_group. simpl. rewrite filter_cons.
  by destruct (decide (k0 = k)).
Qed.

(** Reading a group at a row's position gives the row's own value. *)
Lemma group_lookup keys vals i k :
  length keys = length vals → keys !! i = Some k →
  pd.group keys vals k !! pd.pos_in_group keys i k = vals !! i.
Proof.
  revert vals i. induction keys as [|k0 keys IH]; intros [|v0 vals] i Hlen Hi;
    simplify_eq/=.
  destruct i as [|i]; simplify_eq/=.
  - rewrite pos_in_group_0, group_cons. by rewrite decide_True.
  - rewrite pos_in_group_S, group_cons.
    destruct (decide (k0 = k)); simpl; by apply IH.
Qed.

Lemma pos_in_group_lt keys i j k :
  keys !! i = Some k → (i < j)%nat →
  (pd.pos_in_group keys i k < pd.pos_in_group keys j k)%nat.
Proof.
  revert i j. induction keys as [|k0 keys IH]; intros i j Hi Hij; [done|].
  destruct j as [|j]; [lia|]. destruct i as [|i]; simplify_eq/=.
  - rewrite pos_in_group_0, pos_in_group_S, decide_True by done. lia.
  - rewrite !pos_in_group_S. specialize (IH i j Hi ltac:(lia)).
    destruct (decide (k0 = k)); lia.
Qed.

Lemma length_group keys vals k :
  length keys = length vals →
  length (pd.group keys vals k) = length (filter (λ k', k' = k) keys).
Proof.
  revert vals. induction keys as [|k0 keys IH]; intros [|v0 vals] Hlen;
    simplify_eq/=; [done|].
  rewrite group_cons, filter_cons.
  destruct (decide (k0 = k)); simpl; rewrite IH; done.
Qed.

Lemma group_app keys1 keys2 vals1 vals2 k :
  length keys1 = length vals1 →
  pd.group (keys1 ++ keys2) (vals1 ++ vals2) k =
  pd.group keys1 vals1 k ++ pd.group keys2 vals2 k.
Proof.
  revert vals1. induction keys1 as [|k0 keys1 IH]; intros [|v0 vals1] Hlen;
    simplify_eq/=; [done|].
  rewrite !group_cons, IH by done. by destruct (decide (k0 = k)).
Qed.

End group.

Section groupby.
Context {A B : Type}.
Implicit Types (keys : list string) (vals : list A) (k d : string).

Lemma length_groupby_transform keys vals (f : list A → list (option B)) :
  length (pd.groupby_transform keys vals f) = length keys.
Proof. apply length_imap. Qed.

Lemma groupby_transform_lookup keys vals (f : list A → list (option B)) i k :
  keys !! i = Some k →
  pd.groupby_transform keys vals f !! i =
  Some (mjoin (f (pd.group keys vals k) !! pd.pos_in_group keys i k)).
Proof.
  intros Hi. unfold pd.groupby_transform. by rewrite list_lookup_imap, Hi.
Qed.

(** Scattering a table of per-group results over a prefix of the keys and
    gathering one group back yields the first entries of that group's
    result. *)
Lemma group_scatter (T : string → list (option B)) keys d :
  pd.group keys (imap (λ i k, mjoin (T k !! pd.pos_in_group keys i k)) keys) d =
  (λ j, mjoin (T d !! j)) <$> seq 0 (length (filter (λ k', k' = d) keys)).
Proof.
  induction keys as [|k keys IH] using rev_ind; [done|].
  rewrite imap_app. simpl.
  rewrite group_app by (by rewrite length_imap).
  rewrite filter_app, length_app, seq_app, fmap_app. f_equal.
  - rewrite <-IH. f_equal. apply imap_ext. intros i k' Hi.
    unfold pd.pos_in_group. rewrite take_app_le; [done|].
    apply lookup_lt_Some in Hi. lia.
  - rewrite Nat.add_0_r. unfold pd.pos_in_group at 1.
    rewrite take_app_length. rewrite group_cons, filter_cons. simpl.
    destruct (decide (k = d)) as [->|]; done.
Qed.

Lemma fmap_lookup_seq (l : list (option B)) :
  (λ j, mjoin (l !! j)) <$> seq 0 (length l) = l.
Proof.
  induction l as [|x l IH] using rev_ind; [done|].
  rewrite length_app, seq_app, fmap_app. simpl. f_equal.
  - etrans; [|exact IH]. apply list_fmap_ext. intros i j Hj.
    apply lookup_seq in Hj as [-> Hj]. by rewrite lookup_app_l.
  - simpl. by rewrite list_lookup_middle.
Qed.

(** Gathering a group out of a transformed column gives back what the
    function returned for that group, when it keeps the group's length. *)
Lemma group_groupby_transform keys vals (f : list A → list (option B)) d :
  length keys = length vals →
  length (f (pd.group keys vals d)) = length (pd.group keys vals d) →
  pd.group keys (pd.groupby_transform keys vals f) d = f (pd.group keys vals d).
Proof.
  intros Hlen Hf. unfold pd.groupby_transform.
  rewrite (group_scatter (λ k, f (pd.group keys vals k))).
  rewrite <-(length_group keys vals) by done. rewrite <-Hf.
  apply fmap_lookup_seq.
Qed.

End groupby.

Lemma group_fmap {A B} (g : A → B) (keys : list string) (vals : list A) k :
  pd.group keys (g <$> vals) k = g <$> pd.group keys vals k.
Proof.
  unfold pd.group. revert vals. induction keys as [|k0 keys IH]; intros [|v0 vals];
    simpl; try done.
  rewrite !filter_cons. simpl. destruct (decide (k0 = k)); simpl; by rewrite IH.
Qed.

(** ** Ranking *)

Section rank.
Implicit Types (s : Series) (p q : nat) (v w : Qc).

Global Instance ranks_before_total : Total pd.ranks_before.
Proof.
  intros [p v] [q w]. unfold pd.ranks_before. simpl.
  destruct (Qclt_le_dec v w) as [?|Hle]; [by right; left|].
  destruct (Qclt_le_dec w v) as [?|Hle']; [by left; left|].
  assert (v = w) as -> by (by apply Qcle_antisym).
  destruct (Nat.le_ge_cases p q); [left|right]; right; done.
Qed.

Global Instance ranks_before_trans : Transitive pd.ranks_before.
Proof.
  intros [p v] [q w] [r u]. unfold pd.ranks_before. simpl.
  intros [?|[-> ?]] [?|[-> ?]].
  - left. by eapply Qclt_trans.
  - by left.
  - by left.
  - right. split; [done|lia].
Qed.

Lemma StronglySorted_lookup_lt {A} (R : relation A) (l : list A) i j x y :
  StronglySorted R l → l !! i = Some x → l !! j = Some y → (i < j)%nat → R x y.
Proof.
  intros Hl. revert i j. induction Hl as [|z l Hl IH Hz]; intros i j Hi Hj Hij; [done|].
  destruct j as [|j]; [lia|]. destruct i as [|i]; simplify_eq/=.
  - eapply Forall_forall; [exact Hz|]. by eapply list_elem_of_lookup_2.
  - eapply (IH i j); [done..|lia].
Qed.

Lemma elem_of_valid_indexed s p v :
  (p, v) ∈ pd.valid_indexed s ↔ s !! p = Some (Some v).
Proof.
  unfold pd.valid_indexed. rewrite list_elem_of_omap. split.
  - intros (x & Hx & Hsome). simpl in Hsome. subst x.
    apply elem_of_lookup_imap in Hx as (i & [y|] & Heq & Hi); simplify_eq/=. done.
  - intros Hp. exists (Some (p, v)). split; [|done].
    exact (elem_of_lookup_imap_2 (λ p x, (λ v, (p, v)) <$> x) s (Some v) p Hp).
Qed.

Lemma length_valid_indexed s : (length (pd.valid_indexed s) ≤ length s)%nat.
Proof.
  unfold pd.valid_indexed.
  assert (∀ {A} (l : list (option A)), (length (omap id l) ≤ length l)%nat) as Hlen.
  { intros A l. induction l as [|[x|] l IH]; csimpl; lia. }
  etrans; [apply Hlen|]. by rewrite length_imap.
Qed.

Lemma length_rank_first_desc s : length (pd.rank_first_desc s) = length s.
Proof. apply length_imap. Qed.

Lemma rank_first_desc_None s p :
  s !! p = Some None → pd.rank_first_desc s !! p = Some None.
Proof. intros Hp. unfold pd.rank_first_desc. by rewrite list_lookup_imap, Hp. Qed.

(** A rank is one more than the place of the row in the sorted order. *)
Lemma rank_first_desc_Some s p r :
  pd.rank_first_desc s !! p = Some (Some r) →
  ∃ v i, s !! p = Some (Some v) ∧ r = S i ∧
         merge_sort pd.ranks_before (pd.valid_indexed s) !! i = Some (p, v).
Proof.
  unfold pd.rank_first_desc. rewrite list_lookup_imap.
  destruct (s !! p) as [[v|]|] eqn:Hp; simpl; [|done..].
  intros [= Hfind]. apply fmap_Some in Hfind as ([i q0] & Hfind & ->).
  apply list_find_Some in Hfind as (Hi & -> & _).
  apply list_lookup_fmap_Some in Hi as ([p' v'] & Hi & Hfst). simpl in *. subst p'.
  assert ((p, v') ∈ pd.valid_indexed s) as Hin.
  { rewrite <-(merge_sort_Permutation pd.ranks_before).
    by eapply list_elem_of_lookup_2. }
  apply elem_of_valid_indexed in Hin. simplify_eq. eauto.
Qed.

(** Larger scores rank first; equal scores rank in frame order. *)
Lemma rank_first_desc_order s p q v w rp rq :
  pd.rank_first_desc s !! p = Some (Some rp) →
  pd.rank_first_desc s !! q = Some (Some rq) →
  s !! p = Some (Some v) → s !! q = Some (Some w) →
  w < v ∨ (v = w ∧ (p < q)%nat) → (rp < rq)%nat.
Proof.
  intros (v' & i & Hp & -> & Hi)%rank_first_desc_Some
         (w' & j & Hq & -> & Hj)%rank_first_desc_Some Hp' Hq' Hlt.
  simplify_eq.
  destruct (decide (i < j)%nat) as [|Hnlt]; [lia|exfalso].
  destruct (decide (i = j)) as [->|Hne].
  - simplify_eq. destruct Hlt as [Hlt|[_ Hlt]]; [|lia].
    by apply Qclt_not_eq in Hlt.
  - pose proof (StronglySorted_merge_sort pd.ranks_before (pd.valid_indexed s)) as Hsort.
    pose proof (StronglySorted_lookup_lt _ _ j i _ _ Hsort Hj Hi ltac:(lia)) as Hb.
    unfold pd.ranks_before in Hb. simpl in Hb.
    destruct Hlt as [Hlt|[-> Hlt]], Hb as [Hb|[Heq Hb]]; subst.
    + eapply (irreflexivity Qclt), Qclt_trans; eassumption.
    + by eapply (irreflexivity Qclt).
    + by eapply (irreflexivity Qclt).
    + lia.
Qed.

(** When every row of a group gets a rank, the ranks are 1..N. *)
Lemma rank_first_desc_Permutation s (rs : list nat) :
  pd.rank_first_desc s = Some <$> rs → rs ≡ₚ seq 1 (length rs).
Proof.
  intros Hrs.
  assert (length rs = length s) as Hlen.
  { by rewrite <-(length_rank_first_desc s), Hrs, length_fmap. }
  assert (∀ p r, rs !! p = Some r →
    ∃ v i, r = S i ∧ merge_sort pd.ranks_before (pd.valid_indexed s) !! i = Some (p, v))
    as Hrank.
  { intros p r Hp. destruct (rank_first_desc_Some s p r) as (v & i & _ & -> & Hi); [|eauto].
    by rewrite Hrs, list_lookup_fmap, Hp. }
  apply submseteq_length_Permutation; [|by rewrite length_seq].
  apply NoDup_submseteq.
  - apply NoDup_alt. intros p p' r Hp Hp'.
    destruct (Hrank _ _ Hp) as (v & i & -> & Hi).
    destruct (Hrank _ _ Hp') as (v' & i' & [= <-] & Hi'). by simplify_eq.
  - intros r (p & Hp)%list_elem_of_lookup.
    destruct (Hrank _ _ Hp) as (v & i & -> & Hi).
    apply elem_of_seq. apply lookup_lt_Some in Hi.
    rewrite (Permutation_length (merge_sort_Permutation _ _)) in Hi.
    pose proof (length_valid_indexed s). lia.
Qed.

End rank.

(** ** Column lengths *)

Lemma length_fillna value (s : Series) : length (pd.fillna value s) = length s.
Proof. apply length_fmap. Qed.

Lemma length_normalize_series (s : Series) : length (normalize_series s) = length s.
Proof.
  unfold normalize_series. destruct (pd.dropna s); [done|].
  case_decide; apply length_fmap.
Qed.

Lemma length_vitals_score_raw vm rs : length (vitals_score_raw vm rs) = length rs.
Proof.
  unfold vitals_score_raw, pd.map. case_match;
    rewrite ?length_fillna, !length_fmap; done.
Qed.

Lemma length_normalized_column flag keys (col : Series) :
  length keys = length col → length (normalized_column flag keys col) = length keys.
Proof.
  intros Hlen. destruct flag; simpl.
  - apply length_groupby_transform.
  - by rewrite length_normalize_series.
Qed.

Lemma length_norm_complexity flag rs : length (norm_complexity flag rs) = length rs.
Proof.
  unfold norm_complexity, fill_group_median.
  by rewrite length_groupby_transform, length_fmap.
Qed.

Lemma length_norm_acuity flag rs : length (norm_acuity flag rs) = length rs.
Proof.
  unfold norm_acuity, fill_group_median.
  by rewrite length_groupby_transform, length_fmap.
Qed.

Lemma length_score_column wc wa wv (nc na vs : Series) n :
  length nc = n → length na = n → length vs = n →
  length (score_column wc wa wv nc na vs) = n.
Proof.
  intros Hc Ha Hv. unfold score_column, add, scale.
  rewrite !length_zip_with, !length_fmap. lia.
Qed.

Lemma score_column_lookup wc wa wv (nc na vs : Series) i :
  score_column wc wa wv nc na vs !! i =
  c ← nc !! i; a ← na !! i; v ← vs !! i;
  Some (x ← c; y ← a; z ← v; Some (wc * x + wa * y + wv * z)).
Proof.
  unfold score_column, add, scale.
  rewrite !lookup_zip_with, !list_lookup_fmap.
  destruct (nc !! i) as [[x|]|], (na !! i) as [[y|]|], (vs !! i) as [[z|]|]; done.
Qed.

(** ** Unfolding a successful call *)

Lemma astype_int_Some ranks (k : list nat) :
  pd.astype_int ranks = Some k → ranks = Some <$> k.
Proof.
  unfold pd.astype_int. intros H%mapM_Some.
  induction H as [|x y l k' Hxy _ IH]; simplify_eq/=; [done|]. by f_equal.
Qed.

Lemma astype_int_None ranks i :
  ranks !! i = Some None → pd.astype_int ranks = None.
Proof.
  intros Hi. apply mapM_None, Exists_exists. exists None. split; [|done].
  by eapply list_elem_of_lookup_2.
Qed.

Lemma compute_mcda_scores_Ok df weights vitals_map flag out :
  compute_mcda_scores df weights vitals_map flag = Ok out →
  missing_columns df = [] ∧
  w_total (default default_weights weights) ≠ 0 ∧
  ∃ wc wa wv ranks,
    let nw := normalized_weights (default default_weights weights) in
    let rs := rows df in
    let scores := score_column wc wa wv (norm_complexity flag rs) (norm_acuity flag rs)
                    (vitals_score_raw (default DEFAULT_VITALS_ORDER vitals_map) rs) in
    nw !! "complexity" = Some wc ∧ nw !! "acuity" = Some wa ∧ nw !! "vitals" = Some wv ∧
    pd.groupby_transform (Speciality <$> rs) scores pd.rank_first_desc = Some <$> ranks ∧
    out = zip_with (λ rs k, Build_ScoredRow rs.1 rs.2 k) (zip rs scores) ranks.
Proof.
  unfold compute_mcda_scores, getitem.
  destruct (decide (missing_columns df ≠ [])) as [|Hm%dec_stable]; [done|].
  destruct (decide (w_total _ = 0)); [done|].
  destruct (normalized_weights _ !! "complexity") as [wc|]; [simpl|done].
  destruct (normalized_weights _ !! "acuity") as [wa|]; [simpl|done].
  destruct (normalized_weights _ !! "vitals") as [wv|]; [simpl|done].
  destruct (pd.astype_int _) as [ranks|] eqn:Hranks; [|done].
  intros [= <-]. apply astype_int_Some in Hranks.
  split_and!; [done..|]. exists wc, wa, wv, ranks. simpl. done.
Qed.

Lemma ranks_of_department (rs : list Row) (scores : Series) (ranks : list nat) d :
  length rs = length scores → length rs = length ranks →
  mcda_rank_within_Speciality <$>
    filter (λ o, Speciality (row o) = d)
      (zip_with (λ rs k, Build_ScoredRow rs.1 rs.2 k) (zip rs scores) ranks) =
  pd.group (Speciality <$> rs) ranks d.
Proof.
  revert scores ranks.
  induction rs as [|r rs IH]; intros [|s scores] [|k ranks] Hs Hk; simplify_eq/=; [done|].
  rewrite group_cons, filter_cons. simpl.
  destruct (decide (Speciality r = d)); simpl; by rewrite IH.
Qed.

(** ** Ranks within a Speciality *)

(** C1. Whenever [compute_mcda_scores] succeeds, the output keeps the input
    rows in order; within each Speciality the assigned ranks are exactly the
    integers 1..N (a permutation of them, N the number of rows of that
    Speciality); every row has a score; a row with a larger score has the
    smaller rank; and among rows with equal scores the one appearing earlier
    in the input has the smaller rank. *)
Theorem C1_ranks_within_speciality df weights vitals_map flag out :
  compute_mcda_scores df weights vitals_map flag = Ok out →
  row <$> out = rows df ∧
  (∀ d, let ranks := mcda_rank_within_Speciality <$>
                       filter (λ o, Speciality (row o) = d) out in
        ranks ≡ₚ seq 1 (length ranks)) ∧
  (∀ i j oi oj,
     out !! i = Some oi → out !! j = Some oj →
     Speciality (row oi) = Speciality (row oj) →
     ∃ si sj, MCDA_score oi = Some si ∧ MCDA_score oj = Some sj ∧
       (sj < si → (mcda_rank_within_Speciality oi < mcda_rank_within_Speciality oj)%nat) ∧
       (si = sj → (i < j)%nat →
        (mcda_rank_within_Speciality oi < mcda_rank_within_Speciality oj)%nat)).
Proof.
  intros (_ & _ & wc & wa & wv & ranks & _ & _ & _ & Hranks & ->)%compute_mcda_scores_Ok.
  set (rs := rows df) in *.
  set (keys := Speciality <$> rs) in *.
  set (scores := score_column _ _ _ _ _ _) in *.
  assert (length scores = length rs) as Hlen_scores.
  { apply length_score_column;
      auto using length_norm_complexity, length_norm_acuity, length_vitals_score_raw. }
  assert (length ranks = length rs) as Hlen_ranks.
  { rewrite <-(length_fmap Some ranks), <-Hranks, length_groupby_transform.
    unfold keys. by rewrite length_fmap. }
  assert (length keys = length scores) as Hlen_keys.
  { unfold keys. by rewrite length_fmap. }
  split_and!.
  - clearbody scores. clear Hranks Hlen_keys. clearbody rs. clear keys.
    revert scores ranks Hlen_scores Hlen_ranks.
    induction rs as [|r rs IH]; intros [|s scores] [|k ranks] ??; simplify_eq/=; [done|].
    f_equal. by apply IH.
  - intros d. simpl. rewrite ranks_of_department by done.
    apply rank_first_desc_Permutation with (s := pd.group keys scores d).
    rewrite <-group_fmap, <-Hranks.
    symmetry. apply group_groupby_transform; [done|].
    apply length_rank_first_desc.
  - intros i j oi oj Hi Hj Hdept.
    apply lookup_zip_with_Some in Hi as ([ri si] & ki & -> & Hi & Hki).
    apply lookup_zip_with_Some in Hj as ([rj sj] & kj & -> & Hj & Hkj).
    apply lookup_zip_with_Some in Hi as (? & ? & [= <- <-] & Hri & Hsi).
    apply lookup_zip_with_Some in Hj as (? & ? & [= <- <-] & Hrj & Hsj).
    simpl in *.
    assert (keys !! i = Some (Speciality ri)) as Hkeyi.
    { unfold keys. by rewrite list_lookup_fmap, Hri. }
    assert (keys !! j = Some (Speciality ri)) as Hkeyj.
    { unfold keys. by rewrite list_lookup_fmap, Hrj, Hdept. }
    set (g := pd.group keys scores (Speciality ri)).
    assert (∀ x kx sx, keys !! x = Some (Speciality ri) → ranks !! x = Some kx →
              scores !! x = Some sx →
              pd.rank_first_desc g !! pd.pos_in_group keys x (Speciality ri) = Some (Some kx) ∧
              g !! pd.pos_in_group keys x (Speciality ri) = Some sx) as Hat.
    { intros x kx sx Hx Hkx Hsx. split.
      - pose proof (groupby_transform_lookup keys scores pd.rank_first_desc x _ Hx) as Hl.
        rewrite Hranks, list_lookup_fmap, Hkx in Hl. simpl in Hl.
        fold g in Hl. destruct (pd.rank_first_desc g !! _) as [[?|]|]; by simplify_eq/=.
      - unfold g. by rewrite group_lookup. }
    destruct (Hat i ki si Hkeyi Hki Hsi) as [Hranki Hgi].
    destruct (Hat j kj sj Hkeyj Hkj Hsj) as [Hrankj Hgj].
    destruct (rank_first_desc_Some _ _ _ Hranki) as (vi & _ & Hvi & _).
    destruct (rank_first_desc_Some _ _ _ Hrankj) as (vj & _ & Hvj & _).
    rewrite Hvi in Hgi. rewrite Hvj in Hgj. simplify_eq.
    exists vi, vj. split_and!; [done..| |].
    + intros Hlt. eapply rank_first_desc_order; [exact Hranki|exact Hrankj|done..|by left].
    + intros -> Hij. eapply rank_first_desc_order; [exact Hranki|exact Hrankj|done..|].
      right. split; [done|]. by apply pos_in_group_lt.
Qed.

(** C1 at the sample frame: the call succeeds there. *)
Lemma C1_ranks_within_speciality_witness :
  ∃ out, compute_mcda_scores sample_df None None true = Ok out ∧
    row <$> out = rows sample_df ∧
    (∀ d, let ranks := mcda_rank_within_Speciality <$>
                         filter (λ o, Speciality (row o) = d) out in
          ranks ≡ₚ seq 1 (length ranks)).
Proof.
  eexists. split; [vm_compute; reflexivity|].
  split; apply (C1_ranks_within_speciality sample_df None None true); vm_compute; reflexivity.
Defined.

(** ** Schema and weight validation *)

Lemma elem_of_missing_columns df c :
  c ∈ missing_columns df ↔ c ∈ required ∧ c ∉ columns df.
Proof. unfold missing_columns. rewrite list_elem_of_filter. tauto. Qed.

(** C9. When a required column is absent from the frame's columns, the call
    fails with the missing-columns error whatever the rows, weights, vitals
    map and normalisation flag are, and the error lists exactly the required
    columns that are absent (so in particular the given one). *)
Theorem C9_missing_columns_rejected df weights vitals_map flag c :
  c ∈ required → c ∉ columns df →
  compute_mcda_scores df weights vitals_map flag =
    Err (ValueError_missing_columns (missing_columns df)) ∧
  c ∈ missing_columns df ∧
  (∀ c', c' ∈ missing_columns df ↔ c' ∈ required ∧ c' ∉ columns df).
Proof.
  intros Hreq Hcol.
  assert (c ∈ missing_columns df) as Hc by (by apply elem_of_missing_columns).
  split_and!; [|done|apply elem_of_missing_columns].
  unfold compute_mcda_scores. rewrite decide_True; [done|].
  intros Hnil. rewrite Hnil in Hc. by apply not_elem_of_nil in Hc.
Qed.

Lemma C9_missing_columns_rejected_witness :
  compute_mcda_scores no_acuity_df None None true =
    Err (ValueError_missing_columns (missing_columns no_acuity_df)) ∧
  "Acuity" ∈ missing_columns no_acuity_df ∧
  (∀ c', c' ∈ missing_columns no_acuity_df ↔ c' ∈ required ∧ c' ∉ columns no_acuity_df).
Proof.
  apply (C9_missing_columns_rejected no_acuity_df None None true "Acuity").
  - by_evaluation.
  - by_evaluation.
Defined.

Lemma missing_columns_no_acuity : missing_columns no_acuity_df = ["Acuity"].
Proof. by vm_compute. Qed.

(** The weight check fires exactly on a zero sum. *)
Lemma weights_rejected_iff df weights vitals_map flag :
  missing_columns df = [] →
  compute_mcda_scores df weights vitals_map flag = Err ValueError_sum_of_weights ↔
  w_total (default default_weights weights) = 0.
Proof.
  intros Hm. unfold compute_mcda_scores, getitem. rewrite Hm.
  rewrite decide_False by (by intros []).
  destruct (decide (w_total _ = 0)); [done|].
  split; [|done].
  repeat (case_match; simpl; try done).
Qed.

(** C2 (code defect). The check is [w_total == 0], while its message and
    the specification ask for a positive sum: weights that sum to -1 are
    accepted, and the call returns a ranked frame. *)
Theorem C2_negative_weight_sum_accepted :
  w_total negative_weights < 0 ∧
  view (compute_mcda_scores sample_df (Some negative_weights) None true) =
    Ok [("Cardiology", Some (1 # 10)%Q, 2%nat); ("Oncology", Some (17 # 20)%Q, 1%nat);
        ("Cardiology", Some (9 # 10)%Q, 1%nat); ("Cardiology", Some (1 # 10)%Q, 3%nat);
        ("Oncology", Some (3 # 20)%Q, 2%nat)].
Proof. split; [by_evaluation|]. vm_compute. reflexivity. Qed.

(** ** Normalisation *)

Lemma elem_of_dropna (s : Series) v : v ∈ pd.dropna s ↔ ∃ i, s !! i = Some (Some v).
Proof.
  unfold pd.dropna. rewrite list_elem_of_omap. split.
  - intros (x & (i & Hi)%list_elem_of_lookup & Hx). simpl in Hx. subst. eauto.
  - intros (i & Hi). exists (Some v). split; [|done]. by eapply list_elem_of_lookup_2.
Qed.

Lemma min_is_min v0 l : is_min (pd.min v0 (v0 :: l)) (v0 :: l).
Proof.
  unfold pd.min.
  assert (∀ l', foldr pd.Qc_min v0 l' ∈ v0 :: l' ∧
                ∀ v, v ∈ v0 :: l' → foldr pd.Qc_min v0 l' ≤ v) as Hgen.
  { induction l' as [|x l' [IHin IHle]]; simpl.
    - split; [set_solver|]. intros v ->%list_elem_of_singleton. apply Qcle_refl.
    - unfold pd.Qc_min at 1 3. case_decide as Hx.
      + split; [set_solver|]. intros v [->|[->|Hv]%elem_of_cons]%elem_of_cons.
        * trans (foldr pd.Qc_min v0 l'); [done|]. apply IHle. set_solver.
        * apply Qcle_refl.
        * trans (foldr pd.Qc_min v0 l'); [done|]. apply IHle. set_solver.
      + apply Qcnot_le_lt, Qclt_le_weak in Hx.
        split; [set_solver|]. intros v [->|[->|Hv]%elem_of_cons]%elem_of_cons.
        * apply IHle. set_solver.
        * done.
        * apply IHle. set_solver. }
  destruct (Hgen (v0 :: l)) as [Hin Hle]. split.
  - set_solver.
  - intros v Hv. apply Hle. set_solver.
Qed.

Lemma max_is_max v0 l : is_max (pd.max v0 (v0 :: l)) (v0 :: l).
Proof.
  unfold pd.max.
  assert (∀ l', foldr pd.Qc_max v0 l' ∈ v0 :: l' ∧
                ∀ v, v ∈ v0 :: l' → v ≤ foldr pd.Qc_max v0 l') as Hgen.
  { induction l' as [|x l' [IHin IHle]]; simpl.
    - split; [set_solver|]. intros v ->%list_elem_of_singleton. apply Qcle_refl.
    - unfold pd.Qc_max at 1 3. case_decide as Hx.
      + split; [set_solver|]. intros v [->|[->|Hv]%elem_of_cons]%elem_of_cons.
        * apply IHle. set_solver.
        * done.
        * apply IHle. set_solver.
      + apply Qcnot_le_lt, Qclt_le_weak in Hx.
        split; [set_solver|]. intros v [->|[->|Hv]%elem_of_cons]%elem_of_cons.
        * trans (foldr pd.Qc_max v0 l'); [|done]. apply IHle. set_solver.
        * apply Qcle_refl.
        * trans (foldr pd.Qc_max v0 l'); [|done]. apply IHle. set_solver. }
  destruct (Hgen (v0 :: l)) as [Hin Hle]. split.
  - set_solver.
  - intros v Hv. apply Hle. set_solver.
Qed.

(** C5. [normalize_series] returns a series of the same length in which
    every missing position stays missing; with no known value the input is
    returned unchanged; when all known values are equal every known position
    becomes 0.5; and when two known values differ, every known value [v]
    becomes [(v - mn) / (mx - mn)] for the least and greatest known values
    [mn] and [mx]. *)
Theorem C5_normalize_series (s : Series) :
  length (normalize_series s) = length s ∧
  (∀ i, s !! i = Some None → normalize_series s !! i = Some None) ∧
  (pd.dropna s = [] → normalize_series s = s) ∧
  (∀ c, (∀ v, v ∈ pd.dropna s → v = c) →
        ∀ i v, s !! i = Some (Some v) → normalize_series s !! i = Some (Some half)) ∧
  (∀ v1 v2, v1 ∈ pd.dropna s → v2 ∈ pd.dropna s → v1 ≠ v2 →
     ∃ mn mx, is_min mn (pd.dropna s) ∧ is_max mx (pd.dropna s) ∧ mn < mx ∧
       ∀ i v, s !! i = Some (Some v) →
              normalize_series s !! i = Some (Some ((v - mn) / (mx - mn)))).
Proof.
  split_and!.
  - apply length_normalize_series.
  - intros i Hi. unfold normalize_series. destruct (pd.dropna s); [done|].
    case_decide; by rewrite list_lookup_fmap, Hi.
  - intros Hnil. unfold normalize_series. by rewrite Hnil.
  - intros c Hconst i v Hi. unfold normalize_series.
    destruct (pd.dropna s) as [|v0 l] eqn:Hvalid.
    { assert (v ∈ pd.dropna s) as Hv by (apply elem_of_dropna; eauto).
      rewrite Hvalid in Hv. by apply not_elem_of_nil in Hv. }
    destruct (min_is_min v0 l) as [Hmn _], (max_is_max v0 l) as [Hmx _].
    rewrite (Hconst _ Hmn), (Hconst _ Hmx), decide_True by done.
    by rewrite list_lookup_fmap, Hi.
  - intros v1 v2 Hv1 Hv2 Hne. unfold normalize_series.
    destruct (pd.dropna s) as [|v0 l] eqn:Hvalid; [by apply not_elem_of_nil in Hv1|].
    pose proof (min_is_min v0 l) as Hmin. pose proof (max_is_max v0 l) as Hmax.
    set (mn := pd.min v0 (v0 :: l)) in *. set (mx := pd.max v0 (v0 :: l)) in *.
    assert (mn ≠ mx) as Hmnmx.
    { intros Heq. destruct Hmin as [_ Hmin], Hmax as [_ Hmax]. apply Hne.
      trans mn; [symmetry|]; apply Qcle_antisym; auto.
      - rewrite Heq. auto.
      - rewrite Heq. auto. }
    exists mn, mx. split_and!; [done..| |].
    + assert (mn ≤ mx) as Hle.
      { destruct Hmin as [Hin Hmin], Hmax as [_ Hmax]. trans v0.
        - apply Hmin. set_solver.
        - apply Hmax. set_solver. }
      by apply Qcle_lt_or_eq in Hle as [?|?].
    + intros i v Hi. rewrite decide_False by done. by rewrite list_lookup_fmap, Hi.
Qed.

Lemma C5_normalize_series_witness :
  ∃ mn mx, is_min mn (pd.dropna sample_series) ∧ is_max mx (pd.dropna sample_series) ∧
    mn < mx ∧
    ∀ i v, sample_series !! i = Some (Some v) →
           normalize_series sample_series !! i = Some (Some ((v - mn) / (mx - mn))).
Proof.
  destruct (C5_normalize_series sample_series) as (_ & _ & _ & _ & H).
  apply (H (Q2Qc 2) (Q2Qc 4)); by_evaluation.
Defined.

Example normalize_series_sample :
  values (normalize_series sample_series) = [Some 0%Q; None; Some 1%Q; Some (1 # 2)%Q].
Proof. vm_compute. reflexivity. Qed.

Example normalize_series_constant :
  values (normalize_series [q 7 1; None; q 7 1]) = [Some (1 # 2)%Q; None; Some (1 # 2)%Q].
Proof. vm_compute. reflexivity. Qed.

(** ** Vitals *)

Lemma median_of_is_Some (valid : list Qc) : valid ≠ [] → is_Some (pd.median_of valid).
Proof.
  intros Hne. unfold pd.median_of.
  set (sorted := merge_sort Qcle valid).
  assert (length sorted ≠ 0%nat) as Hlen.
  { unfold sorted. rewrite (Permutation_length (merge_sort_Permutation _ _)).
    by destruct valid. }
  rewrite decide_False by done.
  assert (length sorted / 2 < length sorted)%nat as Hhalf.
  { apply Nat.div_lt; lia. }
  destruct (Nat.even _).
  - destruct (lookup_lt_is_Some_2 sorted (length sorted / 2 - 1)) as [a ->]; [lia|].
    destruct (lookup_lt_is_Some_2 sorted (length sorted / 2)) as [b ->]; [lia|].
    by eexists.
  - by apply lookup_lt_is_Some_2.
Qed.

Lemma median_of_nil : pd.median_of [] = None.
Proof. done. Qed.

Lemma fillna_lookup value (s : Series) i :
  pd.fillna value s !! i = (λ x, match x with Some v => Some v | None => value end) <$> s !! i.
Proof. unfold pd.fillna. by rewrite list_lookup_fmap. Qed.

Lemma isna_any_true (s : Series) i : s !! i = Some None → pd.isna_any s = true.
Proof.
  intros Hi. unfold pd.isna_any. apply bool_decide_eq_true, Exists_exists.
  exists None. split; [|done]. by eapply list_elem_of_lookup_2.
Qed.

Lemma map_lookup vm (labels : list string) i :
  pd.map vm labels !! i = (λ k, vm !! k) <$> labels !! i.
Proof. unfold pd.map. by rewrite list_lookup_fmap. Qed.

(** A row with an unseen label gets the median of the known scores, if any
    ([None] otherwise). *)
Lemma vitals_score_raw_unseen vm rs i r :
  rs !! i = Some r → vm !! Vitals_Trend r = None →
  vitals_score_raw vm rs !! i = Some (pd.median_of (known_vitals_scores vm rs)).
Proof.
  intros Hi Hr. unfold vitals_score_raw.
  assert (pd.map vm (Vitals_Trend <$> rs) !! i = Some None) as Hraw.
  { by rewrite map_lookup, list_lookup_fmap, Hi; simpl; rewrite Hr. }
  rewrite (isna_any_true _ i Hraw). by rewrite fillna_lookup, Hraw.
Qed.

(** C6. When at least one row's vitals label is in the vitals map, the
    median of the mapped vitals scores of the whole frame exists and every
    row whose label is absent from the map gets it as its raw vitals score;
    for the labels Deteriorating (1.0), Stable (0.5) and an unseen one under
    the default map, the unseen row's score is 0.75. *)
Theorem C6_unseen_vitals_get_dataset_median vm rs r0 :
  r0 ∈ rs → is_Some (vm !! Vitals_Trend r0) →
  (∃ m, pd.median_of (known_vitals_scores vm rs) = Some m ∧
     ∀ i r, rs !! i = Some r → vm !! Vitals_Trend r = None →
            vitals_score_raw vm rs !! i = Some (Some m)) ∧
  values (vitals_score_raw DEFAULT_VITALS_ORDER unknown_vitals_rows) =
    [Some 1%Q; Some (1 # 2)%Q; Some (3 # 4)%Q].
Proof.
  intros (i0 & Hi0)%list_elem_of_lookup [v0 Hv0]. split; [|vm_compute; reflexivity].
  destruct (median_of_is_Some (known_vitals_scores vm rs)) as [m Hm].
  { assert (v0 ∈ known_vitals_scores vm rs) as Hin; [|by intros Hnil; rewrite Hnil in Hin;
      apply not_elem_of_nil in Hin].
    apply elem_of_dropna. exists i0.
    by rewrite map_lookup, list_lookup_fmap, Hi0; simpl; rewrite Hv0. }
  exists m. split; [done|]. intros i r Hi Hr.
  by rewrite (vitals_score_raw_unseen vm rs i r), Hm.
Qed.

Lemma C6_unseen_vitals_get_dataset_median_witness :
  ∃ m, pd.median_of (known_vitals_scores DEFAULT_VITALS_ORDER unknown_vitals_rows) = Some m ∧
     ∀ i r, unknown_vitals_rows !! i = Some r →
            DEFAULT_VITALS_ORDER !! Vitals_Trend r = None →
            vitals_score_raw DEFAULT_VITALS_ORDER unknown_vitals_rows !! i = Some (Some m).
Proof.
  eapply (C6_unseen_vitals_get_dataset_median DEFAULT_VITALS_ORDER unknown_vitals_rows).
  - apply list_elem_of_here.
  - by_evaluation.
Defined.

(** ** Missing scores *)

(** A row whose score is [NaN] gets a [NaN] rank. *)
Lemma rank_column_nan keys (scores : Series) i :
  length keys = length scores → scores !! i = Some None →
  pd.groupby_transform keys scores pd.rank_first_desc !! i = Some None.
Proof.
  intros Hlen Hi.
  destruct (lookup_lt_is_Some_2 keys i) as [k Hk].
  { rewrite Hlen. by eapply lookup_lt_Some. }
  rewrite (groupby_transform_lookup keys scores _ i k Hk).
  rewrite rank_first_desc_None; [done|]. by rewrite group_lookup.
Qed.

Lemma score_column_nan wc wa wv (nc na vs : Series) i :
  length nc = length na → length na = length vs →
  nc !! i = Some None ∨ na !! i = Some None ∨ vs !! i = Some None →
  score_column wc wa wv nc na vs !! i = Some None.
Proof.
  intros Hca Hav Hnan. rewrite score_column_lookup.
  assert (i < length vs)%nat as Hi.
  { destruct Hnan as [H|[H|H]]; apply lookup_lt_Some in H; lia. }
  destruct (nc !! i) as [c|] eqn:Hc; [|apply lookup_ge_None in Hc; lia].
  destruct (na !! i) as [a|] eqn:Ha; [|apply lookup_ge_None in Ha; lia].
  destruct (vs !! i) as [v|] eqn:Hv; [|apply lookup_ge_None in Hv; lia].
  destruct c, a, v; simpl; try done; destruct Hnan as [?|[?|?]]; done.
Qed.

(** One unresolved input makes the whole call fail. *)
Lemma nan_input_not_Ok df weights vitals_map flag i :
  norm_complexity flag (rows df) !! i = Some None ∨
  norm_acuity flag (rows df) !! i = Some None ∨
  vitals_score_raw (default DEFAULT_VITALS_ORDER vitals_map) (rows df) !! i = Some None →
  ∀ out, compute_mcda_scores df weights vitals_map flag ≠ Ok out.
Proof.
  intros Hnan out
    (_ & _ & wc & wa & wv & ranks & _ & _ & _ & Hranks & _)%compute_mcda_scores_Ok.
  pose proof (length_norm_complexity flag (rows df)) as Hc.
  pose proof (length_norm_acuity flag (rows df)) as Ha.
  pose proof (length_vitals_score_raw (default DEFAULT_VITALS_ORDER vitals_map) (rows df)) as Hv.
  apply (score_column_nan wc wa wv) in Hnan; [|congruence..].
  apply (rank_column_nan (Speciality <$> rows df)) in Hnan.
  - rewrite Hranks, list_lookup_fmap in Hnan. by destruct (ranks !! i).
  - rewrite length_fmap. symmetry. by apply length_score_column.
Qed.

Lemma nan_input_Err df weights vitals_map flag i :
  let W := default default_weights weights in
  missing_columns df = [] → w_total W ≠ 0 →
  is_Some (W !! "complexity") → is_Some (W !! "acuity") → is_Some (W !! "vitals") →
  norm_complexity flag (rows df) !! i = Some None ∨
  norm_acuity flag (rows df) !! i = Some None ∨
  vitals_score_raw (default DEFAULT_VITALS_ORDER vitals_map) (rows df) !! i = Some None →
  compute_mcda_scores df weights vitals_map flag = Err IntCastingNaNError.
Proof.
  intros W Hm Hw [wc Hwc] [wa Hwa] [wv Hwv] Hnan.
  pose proof (nan_input_not_Ok df weights vitals_map flag i Hnan) as Hnot.
  revert Hnot. unfold compute_mcda_scores, getitem, normalized_weights. fold W.
  rewrite Hm, decide_False by (by intros []). rewrite decide_False by done.
  rewrite !lookup_fmap, Hwc, Hwa, Hwv. simpl.
  destruct (pd.astype_int _); [|done]. intros Hnot. by destruct (Hnot _ eq_refl).
Qed.

(** C3 (amended). When no row's vitals label is in the vitals map, every raw
    vitals score stays missing: no default value is substituted.  A
    non-empty such frame is never scored, and once the schema and weight
    checks pass the call fails on the integer cast of the missing ranks. *)
Theorem C3_unmapped_vitals_stay_missing df weights vitals_map flag :
  let vm := default DEFAULT_VITALS_ORDER vitals_map in
  let W := default default_weights weights in
  (∀ r, r ∈ rows df → vm !! Vitals_Trend r = None) →
  vitals_score_raw vm (rows df) = (λ _, None) <$> rows df ∧
  (rows df ≠ [] →
     (∀ out, compute_mcda_scores df weights vitals_map flag ≠ Ok out) ∧
     (missing_columns df = [] → w_total W ≠ 0 →
      is_Some (W !! "complexity") → is_Some (W !! "acuity") → is_Some (W !! "vitals") →
      compute_mcda_scores df weights vitals_map flag = Err IntCastingNaNError)).
Proof.
  intros vm W Hnone.
  assert (vitals_score_raw vm (rows df) = (λ _, None) <$> rows df) as Hraw.
  { apply list_eq. intros i. rewrite list_lookup_fmap.
    destruct (rows df !! i) as [r|] eqn:Hi; simpl.
    - rewrite (vitals_score_raw_unseen vm (rows df) i r Hi); [|by eapply Hnone, list_elem_of_lookup_2].
      assert (known_vitals_scores vm (rows df) = []) as ->; [|done].
      apply elem_of_nil_inv. intros v (j & Hj)%elem_of_dropna.
      rewrite map_lookup, list_lookup_fmap in Hj.
      destruct (rows df !! j) as [r'|] eqn:Hj'; simplify_eq/=.
      rewrite Hnone in Hj; [done|]. by eapply list_elem_of_lookup_2.
    - apply lookup_ge_None. rewrite length_vitals_score_raw. by apply lookup_ge_None. }
  split; [done|]. intros Hne.
  assert (vitals_score_raw vm (rows df) !! 0%nat = Some None) as H0.
  { rewrite Hraw. by destruct (rows df). }
  split.
  - apply (nan_input_not_Ok df weights vitals_map flag 0). auto.
  - intros. apply (nan_input_Err df weights vitals_map flag 0); auto.
Qed.

Lemma C3_unmapped_vitals_stay_missing_witness :
  vitals_score_raw DEFAULT_VITALS_ORDER (rows unmapped_vitals_df) =
    (λ _, None) <$> rows unmapped_vitals_df ∧
  compute_mcda_scores unmapped_vitals_df None None true = Err IntCastingNaNError.
Proof.
  destruct (C3_unmapped_vitals_stay_missing unmapped_vitals_df None None true) as [H1 H2].
  - intros r Hr. repeat (apply elem_of_cons in Hr as [->|Hr]; [by vm_compute|]).
    by apply not_elem_of_nil in Hr.
  - split; [exact H1|]. apply H2; [done| |by_evaluation..].
    vm_compute. reflexivity.
Defined.

(** Against a 0.5 fallback: on this frame the raw vitals scores are not
    0.5 but missing, and the call fails instead of scoring. *)
Lemma C3_counterexample :
  values (vitals_score_raw DEFAULT_VITALS_ORDER (rows unmapped_vitals_df)) ≠
    [Some (1 # 2)%Q; Some (1 # 2)%Q] ∧
  compute_mcda_scores unmapped_vitals_df None None true = Err IntCastingNaNError ∧
  ¬ ∃ out, compute_mcda_scores unmapped_vitals_df None None true = Ok out.
Proof.
  assert (compute_mcda_scores unmapped_vitals_df None None true = Err IntCastingNaNError)
    as Herr by (vm_compute; reflexivity).
  split_and!; [by vm_compute|done|]. intros [out Hout]. congruence.
Qed.

(** ** Complete frames are scored *)

Lemma rank_first_desc_known (s : Series) p v :
  s !! p = Some (Some v) → ∃ r, pd.rank_first_desc s !! p = Some (Some r).
Proof.
  intros Hp. unfold pd.rank_first_desc. rewrite list_lookup_imap, Hp. simpl.
  destruct (list_find_elem_of (λ q, q = p)
              (merge_sort pd.ranks_before (pd.valid_indexed s)).*1 p) as [[i q] ->];
    [|done|by eexists].
  apply list_elem_of_fmap. exists (p, v). split; [done|].
  rewrite merge_sort_Permutation. by apply elem_of_valid_indexed.
Qed.

Lemma groupby_transform_known {A} keys (col : list (option A)) {B}
    (f : list (option A) → list (option B)) i v :
  length keys = length col →
  (∀ g p x, g !! p = Some (Some x) → ∃ y, f g !! p = Some (Some y)) →
  col !! i = Some (Some v) →
  ∃ y, pd.groupby_transform keys col f !! i = Some (Some y).
Proof.
  intros Hlen Hf Hi.
  destruct (lookup_lt_is_Some_2 keys i) as [k Hk].
  { rewrite Hlen. by eapply lookup_lt_Some. }
  rewrite (groupby_transform_lookup keys col f i k Hk).
  destruct (Hf (pd.group keys col k) (pd.pos_in_group keys i k) v) as [y ->];
    [by rewrite group_lookup|by eexists].
Qed.

Lemma normalize_series_known (g : Series) p x :
  g !! p = Some (Some x) → ∃ y, normalize_series g !! p = Some (Some y).
Proof.
  intros Hp. unfold normalize_series. destruct (pd.dropna g); [by eexists|].
  case_decide; rewrite list_lookup_fmap, Hp; by eexists.
Qed.

Lemma fill_median_known (g : Series) p x :
  g !! p = Some (Some x) → ∃ y, pd.fillna (pd.median g) g !! p = Some (Some y).
Proof. intros Hp. rewrite fillna_lookup, Hp. by eexists. Qed.

Lemma normalized_filled_known flag keys (col : Series) i v :
  length keys = length col → col !! i = Some (Some v) →
  ∃ y, fill_group_median keys (normalized_column flag keys col) !! i = Some (Some y).
Proof.
  intros Hlen Hi.
  assert (∃ y, normalized_column flag keys col !! i = Some (Some y)) as [y Hy].
  { destruct flag; simpl.
    - eapply groupby_transform_known; [done|apply normalize_series_known|done].
    - by eapply normalize_series_known. }
  eapply groupby_transform_known; [|apply fill_median_known|done].
  by rewrite length_normalized_column.
Qed.

Lemma vitals_score_raw_known vm rs i r v :
  rs !! i = Some r → vm !! Vitals_Trend r = Some v →
  vitals_score_raw vm rs !! i = Some (Some v).
Proof.
  intros Hi Hr. unfold vitals_score_raw.
  assert (pd.map vm (Vitals_Trend <$> rs) !! i = Some (Some v)) as Hraw.
  { by rewrite map_lookup, list_lookup_fmap, Hi; simpl; rewrite Hr. }
  case_match; [|done]. by rewrite fillna_lookup, Hraw.
Qed.

(** A frame with all required columns, in which every row has a complexity,
    an acuity and a vitals label known to the map, is scored whenever the
    weights have a non-zero sum and the three keys. *)
Lemma compute_mcda_scores_complete df weights vitals_map flag :
  let W := default default_weights weights in
  let vm := default DEFAULT_VITALS_ORDER vitals_map in
  missing_columns df = [] → w_total W ≠ 0 →
  is_Some (W !! "complexity") → is_Some (W !! "acuity") → is_Some (W !! "vitals") →
  (∀ r, r ∈ rows df →
        is_Some (Complexity r) ∧ is_Some (Acuity r) ∧ is_Some (vm !! Vitals_Trend r)) →
  ∃ out, compute_mcda_scores df weights vitals_map flag = Ok out.
Proof.
  intros W vm Hm Hw [wc Hwc] [wa Hwa] [wv Hwv] Hrows.
  unfold compute_mcda_scores, getitem, normalized_weights. fold W vm.
  rewrite Hm, decide_False by (by intros []). rewrite decide_False by done.
  rewrite !lookup_fmap, Hwc, Hwa, Hwv. simpl.
  set (scores := score_column _ _ _ _ _ _).
  destruct (pd.astype_int _) as [ranks|] eqn:Hranks; [by eexists|exfalso].
  apply mapM_None, Exists_exists in Hranks as (x & (i & Hi)%list_elem_of_lookup & Hx).
  simpl in Hx. subst x.
  destruct (lookup_lt_is_Some_2 (rows df) i) as [r Hr].
  { apply lookup_lt_Some in Hi.
    by rewrite length_groupby_transform, length_fmap in Hi. }
  destruct (Hrows r) as ([c Hc] & [a Ha] & [v Hv]); [by eapply list_elem_of_lookup_2|].
  destruct (normalized_filled_known flag (Speciality <$> rows df) (Complexity <$> rows df) i c)
    as [nc Hnc]; [by rewrite !length_fmap|by rewrite list_lookup_fmap, Hr; simpl; f_equal|].
  destruct (normalized_filled_known flag (Speciality <$> rows df) (Acuity <$> rows df) i a)
    as [na Hna]; [by rewrite !length_fmap|by rewrite list_lookup_fmap, Hr; simpl; f_equal|].
  pose proof (vitals_score_raw_known vm (rows df) i r v Hr Hv) as Hvs.
  assert (∃ s, scores !! i = Some (Some s)) as [s Hs].
  { unfold scores. rewrite score_column_lookup.
    unfold norm_complexity, norm_acuity. rewrite Hnc, Hna, Hvs. by eexists. }
  destruct (groupby_transform_known (Speciality <$> rows df) scores pd.rank_first_desc i s)
    as [y Hy]; [| |done|congruence].
  - rewrite length_fmap. symmetry. unfold scores.
    apply length_score_column;
      auto using length_norm_complexity, length_norm_acuity, length_vitals_score_raw.
  - apply rank_first_desc_known.
Qed.

(** ** Departments without any known value *)

Lemma group_all_missing keys (col : Series) k :
  length keys = length col →
  (∀ j, keys !! j = Some k → col !! j = Some None) →
  pd.dropna (pd.group keys col k) = [].
Proof.
  revert col. induction keys as [|k0 keys IH]; intros [|x col] Hlen Hall;
    simplify_eq/=; [done|].
  rewrite group_cons. destruct (decide (k0 = k)) as [->|].
  - specialize (Hall 0%nat eq_refl) as Hx. simplify_eq/=.
    unfold pd.dropna in *. csimpl. apply IH; [done|]. intros j. apply (Hall (S j)).
  - apply IH; [done|]. intros j. apply (Hall (S j)).
Qed.

(** A per-group function that returns an all-missing group unchanged leaves
    the rows of an all-missing group missing. *)
Lemma groupby_transform_all_missing keys (col : Series) (f : Series → Series) k i :
  length keys = length col →
  (∀ g, pd.dropna g = [] → f g = g) →
  (∀ j, keys !! j = Some k → col !! j = Some None) →
  keys !! i = Some k →
  pd.groupby_transform keys col f !! i = Some None.
Proof.
  intros Hlen Hf Hall Hi.
  rewrite (groupby_transform_lookup keys col f i k Hi).
  rewrite Hf by (by apply group_all_missing).
  by rewrite group_lookup, (Hall i Hi).
Qed.

Lemma normalize_series_all_missing (g : Series) : pd.dropna g = [] → normalize_series g = g.
Proof. intros Hg. unfold normalize_series. by rewrite Hg. Qed.

Lemma fill_median_all_missing (g : Series) :
  pd.dropna g = [] → pd.fillna (pd.median g) g = g.
Proof.
  intros Hg. unfold pd.median, pd.fillna. rewrite Hg, median_of_nil.
  rewrite <-(list_fmap_id g) at 2. apply list_fmap_ext. by intros ? [].
Qed.

(** With per-Speciality normalisation, a Speciality none of whose rows has
    a complexity keeps a missing normalised complexity after the median
    fill. *)
Lemma norm_complexity_unresolved rs i r :
  rs !! i = Some r →
  (∀ r', r' ∈ rs → Speciality r' = Speciality r → Complexity r' = None) →
  norm_complexity true rs !! i = Some None.
Proof.
  intros Hi Hall. unfold norm_complexity, fill_group_median, normalized_column.
  assert (∀ j, (Speciality <$> rs) !! j = Some (Speciality r) →
               (Complexity <$> rs) !! j = Some None) as Hcol.
  { intros j. rewrite !list_lookup_fmap.
    destruct (rs !! j) as [r'|] eqn:Hj; simpl; [|done]. intros [= Hk].
    by rewrite (Hall r') by (by eapply list_elem_of_lookup_2 || done). }
  assert ((Speciality <$> rs) !! i = Some (Speciality r)) as Hk
    by (by rewrite list_lookup_fmap, Hi).
  apply groupby_transform_all_missing with (k := Speciality r);
    [by rewrite length_groupby_transform|apply fill_median_all_missing| |done].
  intros j Hj.
  apply groupby_transform_all_missing with (k := Speciality r);
    [by rewrite !length_fmap|apply normalize_series_all_missing|done..].
Qed.

(** C4 (amended). A row whose normalised complexity or acuity is still
    missing after the per-Speciality median fill is not set aside: the call
    returns no ranked frame at all, and once the schema and weight checks
    pass it fails on the integer cast of the missing rank. *)
Theorem C4_unresolved_numeric_fails_batch df weights vitals_map flag i :
  let W := default default_weights weights in
  norm_complexity flag (rows df) !! i = Some None ∨
  norm_acuity flag (rows df) !! i = Some None →
  (∀ out, compute_mcda_scores df weights vitals_map flag ≠ Ok out) ∧
  (missing_columns df = [] → w_total W ≠ 0 →
   is_Some (W !! "complexity") → is_Some (W !! "acuity") → is_Some (W !! "vitals") →
   compute_mcda_scores df weights vitals_map flag = Err IntCastingNaNError).
Proof.
  intros W Hnan.
  assert (norm_complexity flag (rows df) !! i = Some None ∨
          norm_acuity flag (rows df) !! i = Some None ∨
          vitals_score_raw (default DEFAULT_VITALS_ORDER vitals_map) (rows df) !! i = Some None)
    as Hnan' by tauto.
  split.
  - by apply (nan_input_not_Ok df weights vitals_map flag i).
  - intros. by apply (nan_input_Err df weights vitals_map flag i).
Qed.

Lemma C4_unresolved_numeric_fails_batch_witness :
  norm_complexity true (rows unresolved_complexity_df) !! 1%nat = Some None ∧
  compute_mcda_scores unresolved_complexity_df None None true = Err IntCastingNaNError.
Proof.
  assert (norm_complexity true (rows unresolved_complexity_df) !! 1%nat = Some None) as Hnan
    by (vm_compute; reflexivity).
  split; [exact Hnan|].
  apply (C4_unresolved_numeric_fails_batch unresolved_complexity_df None None true 1);
    [by left|vm_compute; reflexivity|by_evaluation..].
Defined.

(** Against per-record exclusion: the Renal rows of this frame stay unresolved,
    and the complete Cardiology rows are not scored and ranked either. *)
Lemma C4_counterexample :
  values (norm_complexity true (rows unresolved_complexity_df)) =
    [Some 0%Q; None; Some 1%Q; None] ∧
  compute_mcda_scores unresolved_complexity_df None None true = Err IntCastingNaNError ∧
  ¬ ∃ out, compute_mcda_scores unresolved_complexity_df None None true = Ok out.
Proof.
  assert (compute_mcda_scores unresolved_complexity_df None None true = Err IntCastingNaNError)
    as Herr by (vm_compute; reflexivity).
  split_and!; [by vm_compute|done|]. intros [out Hout]. congruence.
Qed.

(** ** The score *)

Lemma convex_combination_bounds (wc wa wv x y z : Qc) :
  0 ≤ wc → 0 ≤ wa → 0 ≤ wv → wc + wa + wv = 1 →
  0 ≤ x ≤ 1 → 0 ≤ y ≤ 1 → 0 ≤ z ≤ 1 →
  0 ≤ wc * x + wa * y + wv * z ≤ 1.
Proof.
  intros Hwc Hwa Hwv Hsum [Hx0 Hx1] [Hy0 Hy1] [Hz0 Hz1]. split.
  - repeat apply Qcplus_nonneg_nonneg; by apply Qcmult_nonneg_nonneg.
  - rewrite <-Hsum. repeat apply Qcplus_le_compat.
    + rewrite <-(Qcmult_1_r wc) at 2. by apply Qcmult_le_mono_nonneg_l.
    + rewrite <-(Qcmult_1_r wa) at 2. by apply Qcmult_le_mono_nonneg_l.
    + rewrite <-(Qcmult_1_r wv) at 2. by apply Qcmult_le_mono_nonneg_l.
Qed.

(** C7 (amended). On success every row's score is
    [wc * nc + wa * na + wv * vs] for the normalised weights and the row's
    normalised complexity, normalised acuity and raw vitals score; and when
    the three weights are non-negative and sum to 1 and the three inputs lie
    in [0,1], the score lies in [0,1]. *)
Theorem C7_score_is_weighted_sum df weights vitals_map flag out i o :
  compute_mcda_scores df weights vitals_map flag = Ok out →
  out !! i = Some o →
  ∃ wc wa wv nc na vs,
    let nw := normalized_weights (default default_weights weights) in
    nw !! "complexity" = Some wc ∧ nw !! "acuity" = Some wa ∧ nw !! "vitals" = Some wv ∧
    norm_complexity flag (rows df) !! i = Some (Some nc) ∧
    norm_acuity flag (rows df) !! i = Some (Some na) ∧
    vitals_score_raw (default DEFAULT_VITALS_ORDER vitals_map) (rows df) !! i = Some (Some vs) ∧
    MCDA_score o = Some (wc * nc + wa * na + wv * vs) ∧
    (0 ≤ wc → 0 ≤ wa → 0 ≤ wv → wc + wa + wv = 1 →
     0 ≤ nc ≤ 1 → 0 ≤ na ≤ 1 → 0 ≤ vs ≤ 1 →
     0 ≤ wc * nc + wa * na + wv * vs ≤ 1).
Proof.
  intros Hok Hi.
  pose proof Hok as (_ & _ & wc & wa & wv & ranks & Hwc & Hwa & Hwv & _ & ->)%compute_mcda_scores_Ok.
  apply lookup_zip_with_Some in Hi as ([r s] & k & -> & Hi & _).
  apply lookup_zip_with_Some in Hi as (? & ? & [= <- <-] & _ & Hs).
  simpl in *. rewrite score_column_lookup in Hs.
  destruct (norm_complexity flag (rows df) !! i) as [c|] eqn:Hc; [|done].
  destruct (norm_acuity flag (rows df) !! i) as [a|] eqn:Ha; [|done].
  destruct (vitals_score_raw _ (rows df) !! i) as [v|] eqn:Hv; [|done].
  simpl in Hs.
  destruct c as [nc|];
    [|exfalso; eapply (nan_input_not_Ok df weights vitals_map flag i); [|exact Hok]; auto].
  destruct a as [na|];
    [|exfalso; eapply (nan_input_not_Ok df weights vitals_map flag i); [|exact Hok]; auto].
  destruct v as [vs|];
    [|exfalso; eapply (nan_input_not_Ok df weights vitals_map flag i); [|exact Hok]; auto].
  simplify_eq/=. exists wc, wa, wv, nc, na, vs.
  split_and!; [done..|]. apply convex_combination_bounds.
Qed.

Lemma C7_score_is_weighted_sum_witness :
  compute_mcda_scores sample_df None None true = Ok sample_out ∧
  ∃ o wc wa wv nc na vs,
    sample_out !! 2%nat = Some o ∧
    MCDA_score o = Some (wc * nc + wa * na + wv * vs) ∧
    0 ≤ wc * nc + wa * na + wv * vs ≤ 1.
Proof.
  assert (compute_mcda_scores sample_df None None true = Ok sample_out) as Hok
    by (vm_compute; reflexivity).
  split; [exact Hok|].
  destruct (sample_out !! 2%nat) as [o|] eqn:Ho; [|by vm_compute in Ho].
  destruct (C7_score_is_weighted_sum sample_df None None true _ 2 _ Hok Ho)
    as (wc & wa & wv & nc & na & vs & Hwc & Hwa & Hwv & Hnc & Hna & Hvs & Hscore & Hbound).
  exists o, wc, wa, wv, nc, na, vs. split; [done|]. split; [exact Hscore|].
  vm_compute in Hwc, Hwa, Hwv, Hnc, Hna, Hvs.
  injection Hwc as <-. injection Hwa as <-. injection Hwv as <-.
  injection Hnc as <-. injection Hna as <-. injection Hvs as <-.
  apply Hbound; try by_evaluation. all: split; by_evaluation.
Defined.

(** The bound fails without non-negative weights: these weights sum to 1,
    all three inputs of the second row lie in [0,1], and its score is 2. *)
Lemma C7_counterexample :
  this <$> used_weight_sum mixed_sign_weights = Some 1%Q ∧
  values (norm_complexity true (rows two_row_df)) = [Some 0%Q; Some 1%Q] ∧
  values (norm_acuity true (rows two_row_df)) = [Some 1%Q; Some 0%Q] ∧
  values (vitals_score_raw DEFAULT_VITALS_ORDER (rows two_row_df)) = [Some 0%Q; Some 0%Q] ∧
  view (compute_mcda_scores two_row_df (Some mixed_sign_weights) None true) =
    Ok [("Cardiology", Some (-1 # 2)%Q, 2%nat); ("Cardiology", Some 2%Q, 1%nat)] ∧
  ¬ (∀ out o s, compute_mcda_scores two_row_df (Some mixed_sign_weights) None true = Ok out →
       o ∈ out → MCDA_score o = Some s → 0 ≤ s ≤ 1).
Proof.
  split_and!; try (vm_compute; reflexivity).
  intros Hall.
  destruct (compute_mcda_scores two_row_df (Some mixed_sign_weights) None true)
    as [out|] eqn:Hok; [|by vm_compute in Hok].
  specialize (Hall out). vm_compute in Hok. injection Hok as <-.
  destruct (Hall _ _ eq_refl (list_elem_of_further _ _ _ (list_elem_of_here _ _)) eq_refl)
    as [_ Hle].
  revert Hle. by_evaluation.
Qed.

(** ** Weights *)


Lemma w_total_empty : w_total ∅ = 0.
Proof. unfold w_total. by rewrite map_fold_empty. Qed.

Lemma w_total_comm (j1 j2 : string) (z1 z2 y : Qc) : y + z2 + z1 = y + z1 + z2.
Proof. ring. Qed.

Lemma w_total_insert (m : gmap string Qc) i x :
  m !! i = None → w_total (<[i:=x]> m) = w_total m + x.
Proof.
  intros Hi. unfold w_total.
  rewrite map_fold_insert_L; [done| |done]. intros. apply w_total_comm; done.
Qed.


Lemma w_total_scaled k (m : gmap string Qc) : w_total (scaled k m) = k * w_total m.
Proof.
  unfold scaled. induction m as [|i x m Hi IH] using map_ind.
  - rewrite fmap_empty, w_total_empty. ring.
  - rewrite fmap_insert, !w_total_insert, IH by (by rewrite ?lookup_fmap, Hi). ring.
Qed.

Lemma normalized_weights_lookup (weights : gmap string Qc) k :
  normalized_weights weights !! k = (λ v, v / w_total weights) <$> weights !! k.
Proof. unfold normalized_weights. by rewrite lookup_fmap. Qed.

Lemma normalized_weights_scaled k (m : gmap string Qc) :
  k ≠ 0 → w_total m ≠ 0 → normalized_weights (scaled k m) = normalized_weights m.
Proof.
  intros Hk Hm. apply map_eq. intros i.
  rewrite !normalized_weights_lookup, w_total_scaled. unfold scaled.
  rewrite lookup_fmap. destruct (m !! i) as [v|]; simpl; [|done].
  f_equal. field. done.
Qed.

(** Multiplying every weight by a non-zero factor changes nothing. *)
Lemma compute_mcda_scores_scaled df k (weights : gmap string Qc) vitals_map flag :
  k ≠ 0 →
  compute_mcda_scores df (Some (scaled k weights)) vitals_map flag =
  compute_mcda_scores df (Some weights) vitals_map flag.
Proof.
  intros Hk. unfold compute_mcda_scores. simpl.
  destruct (decide (missing_columns df ≠ [])); [done|].
  rewrite w_total_scaled.
  destruct (decide (w_total weights = 0)) as [->|Hw].
  - by rewrite Qcmult_0_r, decide_True.
  - rewrite decide_False; [|by intros [?|?]%Qcmult_integral].
    by rewrite normalized_weights_scaled.
Qed.

Lemma weights_2_1_1_scaled :
  weights_2_1_1 = scaled (Q2Qc 4) weights_half_quarter_quarter.
Proof.
  unfold weights_2_1_1, weights_half_quarter_quarter, scaled.
  rewrite !fmap_insert, map_fmap_singleton.
  assert (Q2Qc 4 * Q2Qc (1 # 2) = Q2Qc 2) as -> by by_evaluation.
  assert (Q2Qc 4 * Q2Qc (1 # 4) = Q2Qc 1) as -> by by_evaluation.
  done.
Qed.

Lemma normalized_weights_2_1_1_f64 :
  F64.normalized_weights F64.weights_2_1_1 =
  F64.normalized_weights F64.weights_half_quarter_quarter.
Proof. vm_compute. reflexivity. Qed.

Lemma tripled_weights_scaled : tripled_weights = scaled (Q2Qc 3) default_weights.
Proof.
  unfold tripled_weights, default_weights, scaled.
  rewrite !fmap_insert, map_fmap_singleton.
  assert (Q2Qc 3 * Q2Qc (5 # 10) = Q2Qc (15 # 10)) as -> by by_evaluation.
  assert (Q2Qc 3 * Q2Qc (3 # 10) = Q2Qc (9 # 10)) as -> by by_evaluation.
  assert (Q2Qc 3 * Q2Qc (2 # 10) = Q2Qc (6 # 10)) as -> by by_evaluation.
  done.
Qed.

(** C8 (amended). For every frame, vitals map and normalisation flag, the
    weights {complexity: 2, acuity: 1, vitals: 1} and {complexity: 0.5,
    acuity: 0.25, vitals: 0.25} give the same outcome, hence the same scores
    and the same ranks within every Speciality: divided by their sums, both
    become exactly 0.5, 0.25, 0.25.  This holds in double precision and in
    exact arithmetic.  It does not extend to every positive factor: in
    double precision the defaults times three normalise to other weights
    than the defaults and rank a frame differently. *)
Theorem C8_same_outcome_for_2_1_1_and_half_quarter_quarter :
  (∀ df vitals_map flag,
     F64.compute_mcda_scores df (Some F64.weights_2_1_1) vitals_map flag =
     F64.compute_mcda_scores df (Some F64.weights_half_quarter_quarter) vitals_map flag) ∧
  (∀ df vitals_map flag,
     compute_mcda_scores df (Some weights_2_1_1) vitals_map flag =
     compute_mcda_scores df (Some weights_half_quarter_quarter) vitals_map flag) ∧
  F64.ranks (F64.compute_mcda_scores F64.near_tie_df (Some F64.tripled_weights) None true) ≠
  F64.ranks (F64.compute_mcda_scores F64.near_tie_df (Some F64.default_weights) None true).
Proof.
  split_and!.
  - intros df vitals_map flag. unfold F64.compute_mcda_scores. cbv zeta.
    destruct (decide (F64.missing_columns df ≠ [])); [done|].
    change (default F64.default_weights (Some ?w)) with w.
    assert ((F64.w_total F64.weights_2_1_1 =? 0)%float = false) as ->
      by (vm_compute; reflexivity).
    assert ((F64.w_total F64.weights_half_quarter_quarter =? 0)%float = false) as ->
      by (vm_compute; reflexivity).
    by rewrite normalized_weights_2_1_1_f64.
  - intros df vitals_map flag.
    rewrite weights_2_1_1_scaled. by apply compute_mcda_scores_scaled.
  - vm_compute. intros [= ?].
Qed.

(** Against invariance under every positive factor: the weights
    {1.5, 0.9, 0.6} are the defaults {0.5, 0.3, 0.2} times three; in double
    precision 0.6 / 3.0 is 0.19999999999999998, the first two scores of this
    frame are 0.6 and 0.6 under the tripled weights but 0.6 and
    0.6000000000000001 under the defaults, and the ranks are 1, 2, 3 and
    2, 1, 3. *)
Lemma C8_counterexample :
  tripled_weights = scaled (Q2Qc 3) default_weights ∧
  F64.normalized_weights F64.tripled_weights =
    [("complexity", 0.5); ("acuity", 0.3); ("vitals", 0.19999999999999998)]%float ∧
  F64.normalized_weights F64.default_weights =
    [("complexity", 0.5); ("acuity", 0.3); ("vitals", 0.2)]%float ∧
  F64.scores (F64.compute_mcda_scores F64.near_tie_df (Some F64.tripled_weights) None true) =
    Ok [0.6; 0.6; 0.3]%float ∧
  F64.scores (F64.compute_mcda_scores F64.near_tie_df (Some F64.default_weights) None true) =
    Ok [0.6; 0.6000000000000001; 0.3]%float ∧
  F64.ranks (F64.compute_mcda_scores F64.near_tie_df (Some F64.tripled_weights) None true) =
    Ok [1; 2; 3]%nat ∧
  F64.ranks (F64.compute_mcda_scores F64.near_tie_df (Some F64.default_weights) None true) =
    Ok [2; 1; 3]%nat.
Proof.
  split; [apply tripled_weights_scaled|].
  split_and!; vm_compute; reflexivity.
Qed.

(** Rounding and overflow in the script's arithmetic: the difference of the
    extremes can overflow, distinct values can share a normalised value, and
    a sum of weights can cancel to zero. *)
Example normalize_series_overflow :
  F64.normalize_series [-1.797e308; 0; 1.797e308]%float = [0; 0; nan]%float.
Proof. vm_compute. reflexivity. Qed.

Example normalize_series_rounds_together :
  F64.normalize_series [-1e17; 1; 2; 1e17]%float = [0; 0.5; 0.5; 1]%float.
Proof. vm_compute. reflexivity. Qed.

Example w_total_cancels :
  F64.w_total [("complexity", 1e16); ("acuity", 1); ("vitals", -1e16)]%float = 0%float ∧
  F64.compute_mcda_scores F64.near_tie_df
    (Some [("complexity", 1e16); ("acuity", 1); ("vitals", -1e16)]%float) None true =
  Err ValueError_sum_of_weights.
Proof. split; vm_compute; reflexivity. Qed.

Example weights_2_1_1_ranks :
  view (compute_mcda_scores sample_df (Some weights_2_1_1) None true) =
    Ok [("Cardiology", Some (1 # 8)%Q, 2%nat); ("Oncology", Some (7 # 8)%Q, 1%nat);
        ("Cardiology", Some (7 # 8)%Q, 1%nat); ("Cardiology", Some (1 # 8)%Q, 3%nat);
        ("Oncology", Some (1 # 8)%Q, 2%nat)].
Proof. vm_compute. reflexivity. Qed.









Example missing_vitals_key :
  compute_mcda_scores sample_df (Some two_weights) None true = Err (KeyError "vitals").
Proof. vm_compute. reflexivity. Qed.

(** * Further properties *)

(** ** A frame with one Speciality *)

Lemma group_all_same {A} keys (col : list A) d :
  Forall (λ k, k = d) keys → length keys = length col → pd.group keys col d = col.
Proof.
  intros Hall. revert col. induction Hall as [|k keys -> _ IH]; intros [|x col] Hlen;
    simplify_eq/=; [done|].
  by rewrite group_cons, decide_True, IH.
Qed.

Lemma pos_in_group_all_same keys i d :
  Forall (λ k, k = d) keys → (i ≤ length keys)%nat → pd.pos_in_group keys i d = i.
Proof.
  intros Hall. revert i. induction Hall as [|k keys -> _ IH]; intros [|i] Hi;
    simpl in *; try done; [lia|].
  rewrite pos_in_group_S, decide_True by done. f_equal. apply IH. lia.
Qed.

Lemma groupby_transform_all_same {A B} keys (col : list A)
    (f : list A → list (option B)) d :
  Forall (λ k, k = d) keys → length keys = length col → length (f col) = length col →
  pd.groupby_transform keys col f = f col.
Proof.
  intros Hall Hlen Hf. apply list_eq. intros i.
  destruct (keys !! i) as [k|] eqn:Hk.
  - assert (k = d) as -> by (by eapply (proj1 (Forall_lookup _ _) Hall)).
    rewrite (groupby_transform_lookup keys col f i d Hk).
    rewrite group_all_same, pos_in_group_all_same by
      (done || by apply Nat.lt_le_incl; eapply lookup_lt_Some).
    destruct (lookup_lt_is_Some_2 (f col) i) as [x ->]; [|done].
    rewrite Hf, <-Hlen. by eapply lookup_lt_Some.
  - unfold pd.groupby_transform. rewrite list_lookup_imap, Hk. simpl.
    symmetry. apply lookup_ge_None. rewrite Hf, <-Hlen. by apply lookup_ge_None.
Qed.

(** X5. When all rows share one Speciality, normalising within each
    Speciality and normalising globally give the same outcome. *)
Theorem single_speciality_flag_irrelevant df weights vitals_map d :
  (∀ r, r ∈ rows df → Speciality r = d) →
  compute_mcda_scores df weights vitals_map true =
  compute_mcda_scores df weights vitals_map false.
Proof.
  intros Hall.
  assert (Forall (λ k, k = d) (Speciality <$> rows df)) as Hkeys.
  { apply Forall_fmap, Forall_forall. intros r Hr. by apply Hall. }
  assert (∀ col : Series, length col = length (rows df) →
            normalized_column true (Speciality <$> rows df) col =
            normalized_column false (Speciality <$> rows df) col) as Hnorm.
  { intros col Hlen. simpl.
    apply groupby_transform_all_same with d;
      [done|by rewrite length_fmap|apply length_normalize_series]. }
  unfold compute_mcda_scores, norm_complexity, norm_acuity.
  by rewrite !Hnorm by (by rewrite length_fmap).
Qed.

Lemma single_speciality_flag_irrelevant_witness :
  compute_mcda_scores two_row_df None None true =
  compute_mcda_scores two_row_df None None false.
Proof.
  apply (single_speciality_flag_irrelevant two_row_df None None "Cardiology").
  intros r Hr. repeat (apply elem_of_cons in Hr as [->|Hr]; [reflexivity|]).
  by apply not_elem_of_nil in Hr.
Defined.

(** ** Missing values through normalisation *)

Lemma normalize_series_missing (s : Series) i :
  s !! i = Some None → normalize_series s !! i = Some None.
Proof.
  intros Hi. unfold normalize_series. destruct (pd.dropna s); [done|].
  case_decide; by rewrite list_lookup_fmap, Hi.
Qed.

Lemma normalized_column_missing flag keys (col : Series) i :
  length keys = length col → col !! i = Some None →
  normalized_column flag keys col !! i = Some None.
Proof.
  intros Hlen Hi. destruct flag; simpl; [|by apply normalize_series_missing].
  destruct (lookup_lt_is_Some_2 keys i) as [k Hk].
  { rewrite Hlen. by eapply lookup_lt_Some. }
  rewrite (groupby_transform_lookup keys col _ i k Hk).
  rewrite normalize_series_missing; [done|]. by rewrite group_lookup.
Qed.


(** ** What a scored frame needs

    In double precision: a [NaN] operand makes the result of an arithmetic
    operation a [NaN], so a missing value that no median resolves reaches
    the score, its rank is missing and the integer cast fails. *)







Lemma length_normalize_series_f64 s : length (F64.normalize_series s) = length s.
Proof.
  unfold F64.normalize_series. destruct (pd64.dropna s); [done|].
  simpl. destruct (_ =? _)%float; by rewrite length_fmap.
Qed.
















(** ** The most urgent row *)

(** The ranks of a scored frame, row by row. *)
Lemma scored_ranks df weights vitals_map flag out :
  compute_mcda_scores df weights vitals_map flag = Ok out →
  row <$> out = rows df ∧
  (∀ d, mcda_rank_within_Speciality <$> filter (λ o, Speciality (row o) = d) out ≡ₚ
        seq 1 (length (filter (λ o, Speciality (row o) = d) out))) ∧
  (∀ i j oi oj,
     out !! i = Some oi → out !! j = Some oj →
     Speciality (row oi) = Speciality (row oj) →
     ∃ si sj, MCDA_score oi = Some si ∧ MCDA_score oj = Some sj ∧
       (sj < si ∨ (si = sj ∧ (i < j)%nat) →
        (mcda_rank_within_Speciality oi < mcda_rank_within_Speciality oj)%nat)).
Proof.
  intros (_ & _ & wc & wa & wv & ranks & _ & _ & _ & Hranks & ->)%compute_mcda_scores_Ok.
  set (rs := rows df) in *.
  set (keys := Speciality <$> rs) in *.
  set (scores := score_column _ _ _ _ _ _) in *.
  assert (length scores = length rs) as Hlen_scores.
  { apply length_score_column;
      auto using length_norm_complexity, length_norm_acuity, length_vitals_score_raw. }
  assert (length ranks = length rs) as Hlen_ranks.
  { rewrite <-(length_fmap Some ranks), <-Hranks, length_groupby_transform.
    unfold keys. by rewrite length_fmap. }
  assert (length keys = length scores) as Hlen_keys.
  { unfold keys. by rewrite length_fmap. }
  split_and!.
  - clearbody scores. clear Hranks Hlen_keys. clearbody rs. clear keys.
    revert scores ranks Hlen_scores Hlen_ranks.
    induction rs as [|r rs IH]; intros [|s scores] [|k ranks] ??; simplify_eq/=; [done|].
    f_equal. by apply IH.
  - intros d. rewrite <-(length_fmap mcda_rank_within_Speciality).
    rewrite ranks_of_department by done.
    apply rank_first_desc_Permutation with (s := pd.group keys scores d).
    rewrite <-group_fmap, <-Hranks.
    symmetry. apply group_groupby_transform; [done|].
    apply length_rank_first_desc.
  - intros i j oi oj Hi Hj Hdept.
    apply lookup_zip_with_Some in Hi as ([ri si] & ki & -> & Hi & Hki).
    apply lookup_zip_with_Some in Hj as ([rj sj] & kj & -> & Hj & Hkj).
    apply lookup_zip_with_Some in Hi as (? & ? & [= <- <-] & Hri & Hsi).
    apply lookup_zip_with_Some in Hj as (? & ? & [= <- <-] & Hrj & Hsj).
    simpl in *.
    assert (keys !! i = Some (Speciality ri)) as Hkeyi.
    { unfold keys. by rewrite list_lookup_fmap, Hri. }
    assert (keys !! j = Some (Speciality ri)) as Hkeyj.
    { unfold keys. by rewrite list_lookup_fmap, Hrj, Hdept. }
    set (g := pd.group keys scores (Speciality ri)).
    assert (∀ x kx sx, keys !! x = Some (Speciality ri) → ranks !! x = Some kx →
              scores !! x = Some sx →
              pd.rank_first_desc g !! pd.pos_in_group keys x (Speciality ri) = Some (Some kx) ∧
              g !! pd.pos_in_group keys x (Speciality ri) = Some sx) as Hat.
    { intros x kx sx Hx Hkx Hsx. split.
      - pose proof (groupby_transform_lookup keys scores pd.rank_first_desc x _ Hx) as Hl.
        rewrite Hranks, list_lookup_fmap, Hkx in Hl. simpl in Hl.
        fold g in Hl. destruct (pd.rank_first_desc g !! _) as [[?|]|]; by simplify_eq/=.
      - unfold g. by rewrite group_lookup. }
    destruct (Hat i ki si Hkeyi Hki Hsi) as [Hranki Hgi].
    destruct (Hat j kj sj Hkeyj Hkj Hsj) as [Hrankj Hgj].
    destruct (rank_first_desc_Some _ _ _ Hranki) as (vi & _ & Hvi & _).
    destruct (rank_first_desc_Some _ _ _ Hrankj) as (vj & _ & Hvj & _).
    rewrite Hvi in Hgi. rewrite Hvj in Hgj. simplify_eq.
    exists vi, vj. split_and!; [done..|].
    intros Hlt. eapply rank_first_desc_order; [exact Hranki|exact Hrankj|done..|].
    destruct Hlt as [?|[-> ?]]; [by left|right]. split; [done|]. by apply pos_in_group_lt.
Qed.



(** ** The overall ordering *)

Global Instance sorts_before_total : Total sorts_before.
Proof.
  intros [a x] [b y]. unfold sorts_before. simpl.
  destruct (decide (Speciality (row x) = Speciality (row y))) as [Heq|Hne].
  - destruct (Nat.lt_trichotomy (mcda_rank_within_Speciality x)
                (mcda_rank_within_Speciality y)) as [?|[?|?]].
    + left. right. auto.
    + destruct (Nat.le_ge_cases a b); [left|right]; right; auto.
    + right. right. auto.
  - destruct (total String.le (Speciality (row x)) (Speciality (row y)));
      [left|right]; left; auto.
Qed.

Global Instance sorts_before_trans : Transitive sorts_before.
Proof.
  intros [a x] [b y] [c z]. unfold sorts_before. simpl.
  intros [[Hne1 Hle1]|[Heq1 H1]] [[Hne2 Hle2]|[Heq2 H2]].
  - left. split; [|by etrans]. intros Heq. rewrite <-Heq in Hle2.
    by apply Hne1, (anti_symm String.le).
  - left. by rewrite <-Heq2.
  - left. by rewrite Heq1.
  - right. split; [congruence|]. lia.
Qed.

Lemma imap_pair_snd {A} (l : list A) : (imap pair l).*2 = l.
Proof.
  rewrite fmap_imap. rewrite <-(list_fmap_id l) at 2.
  rewrite <-imap_const. by apply imap_ext.
Qed.

Lemma StronglySorted_lookup_2 {A} (R : relation A) (l : list A) :
  (∀ a b x y, l !! a = Some x → l !! b = Some y → (a < b)%nat → R x y) →
  StronglySorted R l.
Proof.
  induction l as [|x l IH]; intros Hl; constructor.
  - apply IH. intros a b y z Ha Hb Hab. apply (Hl (S a) (S b)); [done..|lia].
  - apply Forall_lookup. intros b y Hb. apply (Hl 0%nat (S b)); [done..|lia].
Qed.

Lemma rank_within_all_specialties_Permutation (l : list ScoredRow) :
  rank_within_all_specialties l ≡ₚ l.
Proof.
  unfold rank_within_all_specialties.
  by rewrite merge_sort_Permutation, imap_pair_snd.
Qed.

Lemma rank_within_all_specialties_sorted (l : list ScoredRow) :
  StronglySorted key_le (rank_within_all_specialties l).
Proof.
  unfold rank_within_all_specialties.
  apply (StronglySorted_fmap snd sorts_before key_le);
    [|apply StronglySorted_merge_sort; apply _].
  intros [a x] [b y]. unfold sorts_before, key_le. simpl.
  intros [?|[? [?|[? ?]]]]; [by left|right..]; split; [done|lia|done|lia].
Qed.

(** A frame already in key order is returned as it is. *)
Lemma rank_within_all_specialties_id (l : list ScoredRow) :
  StronglySorted key_le l → rank_within_all_specialties l = l.
Proof.
  intros Hl. unfold rank_within_all_specialties.
  rewrite <-(imap_pair_snd l) at 2. f_equal.
  apply (StronglySorted_unique_strong sorts_before).
  - intros [a x] [b y] Hx Hy. rewrite merge_sort_Permutation in Hx.
    apply elem_of_lookup_imap in Hx as (a' & x' & [= -> ->] & Hx).
    apply elem_of_lookup_imap in Hy as (b' & y' & [= -> ->] & Hy).
    unfold sorts_before. simpl.
    intros [[Hne Hle]|[Heq H1]] [[Hne' Hle']|[Heq' H2]]; try congruence.
    + by destruct Hne; apply (anti_symm String.le).
    + assert (a' = b') as -> by (destruct H1 as [?|[? ?]], H2 as [?|[? ?]]; lia).
      congruence.
  - apply StronglySorted_merge_sort; apply _.
  - apply StronglySorted_lookup_2. intros a b [a' x] [b' y] Ha Hb Hab.
    apply list_lookup_imap_Some in Ha as (? & Ha & [= -> ->]).
    apply list_lookup_imap_Some in Hb as (? & Hb & [= -> ->]).
    pose proof (StronglySorted_lookup_lt _ _ _ _ _ _ Hl Ha Hb Hab) as Hk.
    unfold key_le in Hk. unfold sorts_before. simpl.
    destruct Hk as [?|[? ?]]; [by left|right]. split; [done|]. lia.
  - apply merge_sort_Permutation.
Qed.

(** X10. [rank_within_all_specialties] loses and invents no row, and in its
    result an earlier row never has a later Speciality, nor, within one
    Speciality, a larger rank. *)
Theorem rank_within_all_specialties_sorts (l : list ScoredRow) :
  rank_within_all_specialties l ≡ₚ l ∧
  ∀ a b x y,
    rank_within_all_specialties l !! a = Some x →
    rank_within_all_specialties l !! b = Some y → (a < b)%nat →
    String.le (Speciality (row x)) (Speciality (row y)) ∧
    (Speciality (row x) = Speciality (row y) →
     (mcda_rank_within_Speciality x ≤ mcda_rank_within_Speciality y)%nat).
Proof.
  split; [apply rank_within_all_specialties_Permutation|].
  intros a b x y Ha Hb Hab.
  pose proof (StronglySorted_lookup_lt _ _ _ _ _ _
                (rank_within_all_specialties_sorted l) Ha Hb Hab) as [[Hne Hle]|[Heq Hle]].
  - done.
  - rewrite Heq. split; [done|]. by intros _.
Qed.

Lemma rank_within_all_specialties_sorts_witness :
  String.le "Cardiology" "Oncology" ∧
  (Speciality <$> (row <$> rank_within_all_specialties sample_out)) =
    ["Cardiology"; "Cardiology"; "Cardiology"; "Oncology"; "Oncology"].
Proof.
  split; [|vm_compute; reflexivity].
  destruct (rank_within_all_specialties_sorts sample_out) as [_ H].
  destruct (rank_within_all_specialties sample_out !! 0%nat) as [x|] eqn:Hx;
    [|by vm_compute in Hx].
  destruct (rank_within_all_specialties sample_out !! 4%nat) as [y|] eqn:Hy;
    [|by vm_compute in Hy].
  destruct (H 0%nat 4%nat x y Hx Hy ltac:(lia)) as [Hle _].
  vm_compute in Hx, Hy. injection Hx as <-. injection Hy as <-. exact Hle.
Defined.

(** X11. Ordering an already ordered frame changes nothing. *)
Theorem rank_within_all_specialties_idempotent (l : list ScoredRow) :
  rank_within_all_specialties (rank_within_all_specialties l) =
  rank_within_all_specialties l.
Proof. apply rank_within_all_specialties_id, rank_within_all_specialties_sorted. Qed.

Lemma ranks_of_sorted_department (l : list ScoredRow) d :
  StronglySorted key_le l →
  StronglySorted le (mcda_rank_within_Speciality <$> filter (λ o, Speciality (row o) = d) l).
Proof.
  induction 1 as [|x l Hl IH Hx]; [constructor|].
  rewrite filter_cons. case_decide as Hd; [|done]. csimpl. constructor; [done|].
  apply Forall_fmap, Forall_forall. intros y [Hy Hin]%list_elem_of_filter.
  apply (proj1 (Forall_forall _ _) Hx) in Hin as [[Hne _]|[_ Hle]]; [congruence|done].
Qed.

Lemma StronglySorted_seq start n : StronglySorted le (seq start n).
Proof.
  revert start. induction n as [|n IH]; intros start; simpl; constructor; [done|].
  apply Forall_forall. intros x Hx%elem_of_seq. lia.
Qed.

(** X12. Ordering a scored frame lists, for each Speciality, its rows with
    the ranks 1, 2, ..., N in this order, N being the number of input rows
    of the Speciality. *)
Theorem ordered_ranks_count_up df weights vitals_map flag out d :
  compute_mcda_scores df weights vitals_map flag = Ok out →
  mcda_rank_within_Speciality <$>
    filter (λ o, Speciality (row o) = d) (rank_within_all_specialties out) =
  seq 1 (length (filter (λ r, Speciality r = d) (rows df))).
Proof.
  intros Hok. destruct (scored_ranks _ _ _ _ _ Hok) as (Hrows & Hperm & _).
  assert (length (filter (λ r, Speciality r = d) (rows df)) =
          length (filter (λ o, Speciality (row o) = d) out)) as ->.
  { rewrite <-Hrows. clear. induction out as [|o out IH]; [done|].
    csimpl. rewrite !filter_cons. simpl. case_decide; simpl; by rewrite IH. }
  apply (StronglySorted_unique le).
  - apply ranks_of_sorted_department, rank_within_all_specialties_sorted.
  - apply StronglySorted_seq.
  - by rewrite rank_within_all_specialties_Permutation.
Qed.

Lemma ordered_ranks_count_up_witness :
  mcda_rank_within_Speciality <$>
    filter (λ o, Speciality (row o) = "Cardiology") (rank_within_all_specialties sample_out) =
  seq 1 (length (filter (λ r, Speciality r = "Cardiology") (rows sample_df))).
Proof.
  apply (ordered_ranks_count_up sample_df None None true). vm_compute. reflexivity.
Defined.

(** ** Normalisation within a Speciality *)

Lemma group_rows (field : Row → option Qc) (rs : list Row) d :
  pd.group (Speciality <$> rs) (field <$> rs) d =
  field <$> filter (λ r, Speciality r = d) rs.
Proof.
  induction rs as [|r rs IH]; [done|].
  csimpl. rewrite group_cons, filter_cons. case_decide; csimpl; by rewrite IH.
Qed.

Lemma length_normalize_and_fill (g : Series) : length (normalize_and_fill g) = length g.
Proof. unfold normalize_and_fill. by rewrite length_fillna, length_normalize_series. Qed.

(** With per-Speciality normalisation, the normalised and filled values of a
    Speciality are computed from that Speciality's own values. *)
Lemma group_normalized_filled (field : Row → option Qc) (rs : list Row) d :
  pd.group (Speciality <$> rs)
    (fill_group_median (Speciality <$> rs)
       (normalized_column true (Speciality <$> rs) (field <$> rs))) d =
  normalize_and_fill (field <$> filter (λ r, Speciality r = d) rs).
Proof.
  unfold fill_group_median, normalize_and_fill. simpl.
  rewrite group_groupby_transform;
    [|by rewrite length_groupby_transform|by rewrite length_fillna].
  rewrite group_groupby_transform;
    [|by rewrite !length_fmap|by rewrite length_normalize_series].
  by rewrite group_rows.
Qed.

(** X16. With per-Speciality normalisation, rows of other Specialities do
    not matter: two frames with the same rows in a Speciality give these
    rows the same normalised complexity and the same normalised acuity. *)
Theorem within_speciality_normalisation_is_local (rs1 rs2 : list Row) d :
  filter (λ r, Speciality r = d) rs1 = filter (λ r, Speciality r = d) rs2 →
  pd.group (Speciality <$> rs1) (norm_complexity true rs1) d =
    pd.group (Speciality <$> rs2) (norm_complexity true rs2) d ∧
  pd.group (Speciality <$> rs1) (norm_acuity true rs1) d =
    pd.group (Speciality <$> rs2) (norm_acuity true rs2) d.
Proof.
  intros Heq. unfold norm_complexity, norm_acuity.
  by rewrite !group_normalized_filled, Heq.
Qed.

Lemma within_speciality_normalisation_is_local_witness :
  pd.group (Speciality <$> sample_rows) (norm_complexity true sample_rows) "Cardiology" =
    pd.group (Speciality <$> cardiology_rows) (norm_complexity true cardiology_rows)
      "Cardiology".
Proof.
  apply (within_speciality_normalisation_is_local sample_rows cardiology_rows).
  vm_compute. reflexivity.
Defined.

(** X17. A row without a complexity (or acuity) gets, as its normalised
    value, the median of the normalised values of its Speciality. *)
Theorem missing_value_gets_speciality_median flag (rs : list Row) i r :
  rs !! i = Some r →
  (Complexity r = None →
   norm_complexity flag rs !! i =
     Some (pd.median (pd.group (Speciality <$> rs)
                        (normalized_column flag (Speciality <$> rs) (Complexity <$> rs))
                        (Speciality r)))) ∧
  (Acuity r = None →
   norm_acuity flag rs !! i =
     Some (pd.median (pd.group (Speciality <$> rs)
                        (normalized_column flag (Speciality <$> rs) (Acuity <$> rs))
                        (Speciality r)))).
Proof.
  intros Hi.
  assert (∀ field : Row → option Qc, field r = None →
    fill_group_median (Speciality <$> rs)
      (normalized_column flag (Speciality <$> rs) (field <$> rs)) !! i =
    Some (pd.median (pd.group (Speciality <$> rs)
                       (normalized_column flag (Speciality <$> rs) (field <$> rs))
                       (Speciality r)))) as Hfield.
  { intros field Hr. unfold fill_group_median.
    rewrite (groupby_transform_lookup _ _ _ i (Speciality r))
      by (by rewrite list_lookup_fmap, Hi).
    rewrite fillna_lookup, group_lookup;
      [|by rewrite length_normalized_column, ?length_fmap by (by rewrite !length_fmap)
       |by rewrite list_lookup_fmap, Hi].
    rewrite normalized_column_missing;
      [done|by rewrite !length_fmap|by rewrite list_lookup_fmap, Hi; simpl; rewrite Hr]. }
  split; apply Hfield.
Qed.

Lemma missing_value_gets_speciality_median_witness :
  values (norm_acuity true sample_rows) =
    [Some 0%Q; Some (1 # 2)%Q; Some 1%Q; Some 0%Q; Some (1 # 2)%Q] ∧
  norm_acuity true sample_rows !! 4%nat =
    Some (pd.median (pd.group (Speciality <$> sample_rows)
                       (normalized_column true (Speciality <$> sample_rows)
                          (Acuity <$> sample_rows)) "Oncology")).
Proof.
  split; [vm_compute; reflexivity|].
  destruct (sample_rows !! 4%nat) as [r|] eqn:Hr; [|by vm_compute in Hr].
  destruct (missing_value_gets_speciality_median true sample_rows 4 r Hr) as [_ H].
  injection Hr as <-. apply H. reflexivity.
Defined.

(** ** The sign of the weights *)

(** X19. Changing the sign of every weight changes nothing: the outcome for
    the negated weights is the outcome for the weights themselves. *)
Theorem negated_weights_same_outcome df (weights : gmap string Qc) vitals_map flag :
  compute_mcda_scores df (Some (Qcopp <$> weights)) vitals_map flag =
  compute_mcda_scores df (Some weights) vitals_map flag.
Proof.
  rewrite <-(compute_mcda_scores_scaled df (- 1) weights vitals_map flag) by by_evaluation.
  assert (Qcopp <$> weights = scaled (- 1) weights) as ->; [|done].
  unfold scaled. apply map_fmap_ext. intros k v _. ring.
Qed.
